(** * DragonBoat: seating assignment, balance metrics and roster CSV

    A shallow embedding of the algorithmic core of [DragonBoat.py]:
    the side partitioner ([distribute_others_by_weight]), the role-aware
    seat packer ([build_side_with_roles]), the balance analyser
    ([compute_balance_metrics] and the suggestion block of the
    "Assign Seating" handler) and the roster CSV import and export.

    Modelling conventions.
    - A roster entry is the dict built by the form and by the CSV import;
      both always set the six keys, so it is a record.  Text values are
      [string]s holding the UTF-8 bytes of the Python [str].  [strip]
      removes the characters [str.strip] removes, the ASCII ones and
      those outside ASCII.  [lower] lowers the ASCII letters and the
      Kelvin sign, the one character outside ASCII that [str.lower] maps
      into ASCII, and keeps every other character, so that a test
      [x.lower() == 'bow'] against an ASCII constant is modelled exactly.
    - Weights are Python floats: finite binary64 numbers, modelled by the
      rationals ([Q]) they denote.  Comparisons of floats are exact.  An
      addition or subtraction of two floats is the exact result rounded
      to the nearest binary64 number, ties to even ([round64]); overflow
      to an infinity is not modelled.  [sum] adds from left to right,
      [((0 + k1) + k2) + ...], each addition rounded, as CPython does it
      up to version 3.11.  Only the divisions and products that place
      the dot of [render_balance_cross] are kept exact; their results
      are compared with bounds and with each other, not reported.
    - [sorted(..., key=..., reverse=True)] is Python's stable sort; it is
      modelled by a stable insertion sort, and its defining properties
      (permutation, descending, stability) are proved below.
    - Lists mutated in place ([append], [pop(0)], [seats[idx] = ...]) are
      threaded through explicitly.
    - pandas and Python's [float] and [str] are outside the repository:
      the calls the code makes to them are the fields of the classes
      [Pandas] and [PyFloat], and a raised exception is a [None]. *)

From Stdlib Require Import List String Ascii Bool ZArith QArith Qabs Qminmax.
From Stdlib Require Import Qround Qpower.
From Stdlib Require Import Lia Lqa Permutation Sorted.
From Stdlib Require OrderedTypeEx.
From Stdlib Require Import DecimalString.
Import ListNotations.

Local Open Scope string_scope.
Local Open Scope list_scope.
Local Open Scope Q_scope.

(* ================================================================== *)
(** ** Strings *)

(** The UTF-8 bytes with the given values. *)
Definition utf8 (codes : list nat) : list ascii := map ascii_of_nat codes.

(** [str.lower] on an ASCII letter. *)
Definition lower_ascii (c : ascii) : ascii :=
  let n := nat_of_ascii c in
  if ((65 <=? n) && (n <=? 90))%nat then ascii_of_nat (n + 32) else c.

(** The three bytes of the Kelvin sign U+212A. *)
Definition kelvin_sign (c1 c2 c3 : ascii) : bool :=
  ((nat_of_ascii c1 =? 226) && (nat_of_ascii c2 =? 132)
   && (nat_of_ascii c3 =? 170))%nat.

(** [str.lower]: ASCII letters are lowered and the Kelvin sign becomes
    "k"; the other characters outside ASCII are kept as they are. *)
Fixpoint lower (s : string) : string :=
  match s with
  | EmptyString => EmptyString
  | String c1 r1 =>
      match r1 with
      | String c2 (String c3 r3) =>
          if kelvin_sign c1 c2 c3 then String "k"%char (lower r3)
          else String (lower_ascii c1) (lower r1)
      | _ => String (lower_ascii c1) (lower r1)
      end
  end.

(** The characters for which [str.isspace] holds, the ones [str.strip]
    removes: U+0009 to U+000D, U+001C to U+0020, U+0085, U+00A0, U+1680,
    U+2000 to U+200A, U+2028, U+2029, U+202F, U+205F and U+3000, each as
    its UTF-8 bytes. *)
Definition whitespace : list (list ascii) :=
  map utf8
    [ [9]; [10]; [11]; [12]; [13]; [28]; [29]; [30]; [31]; [32];
      [194; 133]; [194; 160]; [225; 154; 128];
      [226; 128; 128]; [226; 128; 129]; [226; 128; 130]; [226; 128; 131];
      [226; 128; 132]; [226; 128; 133]; [226; 128; 134]; [226; 128; 135];
      [226; 128; 136]; [226; 128; 137]; [226; 128; 138];
      [226; 128; 168]; [226; 128; 169]; [226; 128; 175];
      [226; 129; 159]; [227; 128; 128] ]%nat.

(** [l] without the leading bytes [w], if it begins with them. *)
Fixpoint drop_prefix (w l : list ascii) : option (list ascii) :=
  match w, l with
  | [], _ => Some l
  | a :: w', b :: l' => if Ascii.eqb a b then drop_prefix w' l' else None
  | _ :: _, [] => None
  end.

(** [l] without its first character, if that is one of [ws]. *)
Fixpoint drop_one (ws : list (list ascii)) (l : list ascii)
  : option (list ascii) :=
  match ws with
  | [] => None
  | w :: rest =>
      match drop_prefix w l with
      | Some r => Some r
      | None => drop_one rest l
      end
  end.

(** [l] without its leading characters of [ws]; each step removes at
    least one byte, so [fuel = len(l)] steps are enough. *)
Fixpoint drop_leading (fuel : nat) (ws : list (list ascii)) (l : list ascii)
  : list ascii :=
  match fuel with
  | O => l
  | S n =>
      match drop_one ws l with
      | Some r => drop_leading n ws r
      | None => l
      end
  end.

Definition lstrip_bytes (l : list ascii) : list ascii :=
  drop_leading (List.length l) whitespace l.

(** Trailing whitespace is leading whitespace of the reversed bytes. *)
Definition rstrip_bytes (l : list ascii) : list ascii :=
  rev (drop_leading (List.length l) (map (@rev ascii) whitespace) (rev l)).

(** [str.strip()]. *)
Definition strip (s : string) : string :=
  string_of_list_ascii (rstrip_bytes (lstrip_bytes (list_ascii_of_string s))).

(** Truthiness of a Python string: non-empty. *)
Definition nonempty (s : string) : bool :=
  match s with EmptyString => false | _ => true end.

(* ================================================================== *)
(** ** Binary64 arithmetic *)

(** The integer nearest to [m], the even one of two equally near. *)
Definition round_half_even (m : Q) : Z :=
  let f := Qfloor m in
  match Qcompare (m - inject_Z f) (1 # 2) with
  | Lt => f
  | Gt => (f + 1)%Z
  | Eq => if Z.even f then f else (f + 1)%Z
  end.

(** For [0 < x], the [k] with [2 ^ k <= x < 2 ^ (k + 1)]. *)
Definition binade (x : Q) : Z :=
  let k := (Z.log2 (Qnum x) - Z.log2 (Zpos (Qden x)))%Z in
  if Qle_bool (2 ^ k) x then k else (k - 1)%Z.

(** For [0 < x], the nearest multiple of [2 ^ e], where [e] leaves a
    significand of 53 bits and is at least the exponent of the subnormal
    numbers. *)
Definition round_pos (x : Q) : Q :=
  let e := Z.max (binade x - 52) (-1074) in
  inject_Z (round_half_even (x / 2 ^ e)) * 2 ^ e.

(** The binary64 number nearest to [x], as a reduced fraction. *)
Definition round64 (x : Q) : Q :=
  match Qcompare x 0 with
  | Eq => 0
  | Gt => Qred (round_pos x)
  | Lt => Qred (- round_pos (- x))
  end.

(** [a + b] and [a - b] on floats. *)
Definition fadd (a b : Q) : Q := round64 (a + b).
Definition fsub (a b : Q) : Q := round64 (a - b).

(** The float a decimal literal denotes, as in [59.3]. *)
Definition float_literal (q : Q) : Q := round64 q.


(* ================================================================== *)
(** ** Data model *)

(** A roster entry: [{"name", "weight", "level", "position",
    "classification", "role"}]. *)
Record Paddler := {
  name : string;
  weight : Q;
  level : string;
  position : string;
  classification : string;
  role : string
}.

(** A row of the seating assignment: [{"Seat", "Side", "Name", "Weight",
    "Level", "Classification", "Role"}]. *)
Record AssignRow := {
  Seat : Z;
  Side : string;
  Name : string;
  Weight : Q;
  Level : string;
  Classification : string;
  Role : string
}.

(** The dict returned by [compute_balance_metrics]. *)
Record BalanceMetrics := {
  left : Q;
  right : Q;
  front : Q;
  back : Q;
  total : Q;
  diff_lr : Q;
  diff_fb : Q
}.

(** [float(m.get('weight') or 0)]: the sort key and the summand. *)
Definition weight_of (m : Paddler) : Q := weight m.

(** [(m.get('position') or '').lower() == side]. *)
Definition position_is (side : string) (m : Paddler) : bool :=
  String.eqb (lower (position m)) side.

(** [(m.get('role') or '').lower() == r]. *)
Definition role_is (r : string) (m : Paddler) : bool :=
  String.eqb (lower (role m)) r.

(* ================================================================== *)
(** ** [sorted(l, key=..., reverse=True)] *)

Section Sorted.
Context {A : Type}.
Variable key : A -> Q.

(** [x] goes in front of the first element whose key is not larger:
    equal keys keep the order of the input. *)
Fixpoint insert_desc (x : A) (l : list A) : list A :=
  match l with
  | [] => [x]
  | y :: ys =>
      if Qle_bool (key y) (key x) then x :: y :: ys
      else y :: insert_desc x ys
  end.

Definition sorted_reverse (l : list A) : list A :=
  fold_right insert_desc [] l.

(** [max([best] + l, key=...)]: the first element with the largest key. *)
Fixpoint max_from (best : A) (l : list A) : A :=
  match l with
  | [] => best
  | x :: r =>
      if Qle_bool (key x) (key best) then max_from best r
      else max_from x r
  end.

(** [min([best] + l, key=...)]: the first element with the smallest key. *)
Fixpoint min_from (best : A) (l : list A) : A :=
  match l with
  | [] => best
  | x :: r =>
      if Qle_bool (key best) (key x) then min_from best r
      else min_from x r
  end.

(** Python's [sum] of the keys: [((0 + k1) + k2) + ...], every addition
    a float addition. *)
Definition sum_by (l : list A) : Q :=
  fold_left (fun acc x => fadd acc (key x)) l 0.
End Sorted.

(* ================================================================== *)
(** ** Side partitioner: [distribute_others_by_weight] *)

(** [total_w(lst)]. *)
Definition total_w (lst : list Paddler) : Q := sum_by weight_of lst.

(** One iteration of the loop: the pair is [(bow_list, stroke_list)]. *)
Definition place (st : list Paddler * list Paddler) (o : Paddler)
  : list Paddler * list Paddler :=
  if Qle_bool (total_w (fst st)) (total_w (snd st))
  then (fst st ++ [o], snd st)
  else (fst st, snd st ++ [o]).

Definition distribute_others_by_weight
  (bow_list stroke_list others : list Paddler)
  : list Paddler * list Paddler :=
  fold_left place (sorted_reverse weight_of others) (bow_list, stroke_list).

(** One iteration as the loop ran it: the two lists before it, the paddler
    it placed and the two lists after it. *)
Record Placement := {
  before : list Paddler * list Paddler;
  placed : Paddler;
  after : list Paddler * list Paddler
}.

(** The iterations of the loop over [os], started in state [st]. *)
Fixpoint placements (st : list Paddler * list Paddler) (os : list Paddler)
  : list Placement :=
  match os with
  | [] => []
  | o :: r =>
      {| before := st; placed := o; after := place st o |}
      :: placements (place st o) r
  end.

Definition distribute_trace (bow_list stroke_list others : list Paddler)
  : list Placement :=
  placements (bow_list, stroke_list) (sorted_reverse weight_of others).

(* ================================================================== *)
(** ** Seat packer: [build_side_with_roles] *)

(** The three mutable lists [pacers], [engines], [rockets]. *)
Record Buckets := {
  pacers : list Paddler;
  engines : list Paddler;
  rockets : list Paddler
}.

(** A reference to one of the three lists, as passed to [pop_heaviest]. *)
Inductive Group := Pacers | Engines | Rockets.

Definition group_of (g : Group) (b : Buckets) : list Paddler :=
  match g with
  | Pacers => pacers b
  | Engines => engines b
  | Rockets => rockets b
  end.

Definition set_group (g : Group) (l : list Paddler) (b : Buckets) : Buckets :=
  match g with
  | Pacers => {| pacers := l; engines := engines b; rockets := rockets b |}
  | Engines => {| pacers := pacers b; engines := l; rockets := rockets b |}
  | Rockets => {| pacers := pacers b; engines := engines b; rockets := l |}
  end.

(** [pop_heaviest(groups)]: [g.pop(0)] on the first non-empty list. *)
Fixpoint pop_heaviest (groups : list Group) (b : Buckets)
  : option Paddler * Buckets :=
  match groups with
  | [] => (None, b)
  | g :: rest =>
      match group_of g b with
      | x :: xs => (Some x, set_group g xs b)
      | [] => pop_heaviest rest b
      end
  end.

(** [seats[idx] = v]; the indices used are all below [len(seats)]. *)
Fixpoint assign_at {A : Type} (l : list A) (idx : nat) (v : A) : list A :=
  match l, idx with
  | [], _ => []
  | _ :: r, O => v :: r
  | x :: r, S i => x :: assign_at r i v
  end.

(** One iteration of a loop [for idx in ...: seats[idx] = pop_heaviest(groups)]. *)
Definition fill_seat (groups : list Group)
  (st : Buckets * list (option Paddler)) (idx : nat)
  : Buckets * list (option Paddler) :=
  let r := pop_heaviest groups (fst st) in
  (snd r, assign_at (snd st) idx (fst r)).

(** [[s for s in seats if s is not None]]. *)
Fixpoint drop_none {A : Type} (l : list (option A)) : list A :=
  match l with
  | [] => []
  | Some x :: r => x :: drop_none r
  | None :: r => drop_none r
  end.

Definition is_engine (m : Paddler) : bool :=
  negb (role_is "pacer" m || role_is "rocket" m).

Definition role_buckets (members : list Paddler) : Buckets :=
  {| pacers := sorted_reverse weight_of (filter (role_is "pacer") members);
     engines := sorted_reverse weight_of (filter is_engine members);
     rockets := sorted_reverse weight_of (filter (role_is "rocket") members) |}.

Definition fill_seats (members : list Paddler)
  : Buckets * list (option Paddler) :=
  let st0 := (role_buckets members, repeat None 10) in
  (* Front seats prefer pacers *)
  let st1 := fold_left (fill_seat [Pacers; Engines; Rockets]) (seq 0 2) st0 in
  (* Back seats prefer rockets *)
  let st2 := fold_left (fill_seat [Rockets; Engines; Pacers]) [9; 8]%nat st1 in
  (* Middle seats with remaining weight (engines first) *)
  fold_left (fill_seat [Engines; Pacers; Rockets]) (seq 2 6) st2.

Definition build_side_with_roles (members : list Paddler) : list Paddler :=
  drop_none (snd (fill_seats members)).

(** The calls of [pop_heaviest] in the order the three loops make them,
    and what a sequence of calls returns and leaves. *)
Definition seat_calls : list (list Group) :=
  repeat [Pacers; Engines; Rockets] 2
  ++ repeat [Rockets; Engines; Pacers] 2
  ++ repeat [Engines; Pacers; Rockets] 6.

Fixpoint pop_sequence (calls : list (list Group)) (b : Buckets)
  : list (option Paddler) * Buckets :=
  match calls with
  | [] => ([], b)
  | groups :: rest =>
      let r := pop_heaviest groups b in
      let rs := pop_sequence rest (snd r) in
      (fst r :: fst rs, snd rs)
  end.

(** Where the loops store the results of the ten calls. *)
Definition seats_of_calls (rs : list (option Paddler)) : list (option Paddler) :=
  match rs with
  | [r1; r2; r3; r4; r5; r6; r7; r8; r9; r10] =>
      [r1; r2; r5; r6; r7; r8; r9; r10; r4; r3]
  | _ => []
  end.

(** A call that may take from any of the three lists. *)
Definition covers (groups : list Group) : Prop := forall g, In g groups.

(** The paddlers still in the three lists. *)
Definition remaining (b : Buckets) : list Paddler :=
  pacers b ++ engines b ++ rockets b.

(** The three lists before they are sorted. *)
Definition role_groups (members : list Paddler) : Buckets :=
  {| pacers := filter (role_is "pacer") members;
     engines := filter is_engine members;
     rockets := filter (role_is "rocket") members |}.

(* ================================================================== *)
(** ** Balance analyser: [compute_balance_metrics] *)

(** [float(r.get('Weight') or 0)]. *)
Definition row_weight (r : AssignRow) : Q := Weight r.

(** [(r.get('Side') or '').lower() == side]. *)
Definition side_is (side : string) (r : AssignRow) : bool :=
  String.eqb (lower (Side r)) side.

(** [(r.get('Seat') or 0) and int(r.get('Seat')) <= 5]. *)
Definition in_front (r : AssignRow) : bool :=
  negb (Seat r =? 0)%Z && (Seat r <=? 5)%Z.

(** [(r.get('Seat') or 0) and int(r.get('Seat')) > 5]. *)
Definition in_back (r : AssignRow) : bool :=
  negb (Seat r =? 0)%Z && (5 <? Seat r)%Z.

(** Returns [None] for the empty dict [{}]. *)
Definition compute_balance_metrics (assign_rows : list AssignRow)
  : option BalanceMetrics :=
  match assign_rows with
  | [] => None
  | _ =>
      let l := sum_by row_weight (filter (side_is "bow") assign_rows) in
      let r := sum_by row_weight (filter (side_is "stroke") assign_rows) in
      let f := sum_by row_weight (filter in_front assign_rows) in
      let b := sum_by row_weight (filter in_back assign_rows) in
      Some {| left := l; right := r; front := f; back := b;
              total := fadd l r; diff_lr := fsub l r; diff_fb := fsub f b |}
  end.

(* ================================================================== *)
(** ** The "Assign Seating" handler *)

(** The row appended for the paddler [m] found at index [row] of a side. *)
Definition seat_row (side : string) (row : nat) (m : Paddler) : AssignRow :=
  {| Seat := Z.of_nat row + 1; Side := side; Name := name m;
     Weight := weight m; Level := level m;
     Classification := classification m; Role := role m |}.

(** The body of [for row in range(max_rows)]. *)
Definition rows_at (bow stroke : list Paddler) (row : nat) : list AssignRow :=
  match nth_error bow row with
  | Some m => [seat_row "Bow" row m]
  | None => []
  end ++
  match nth_error stroke row with
  | Some m => [seat_row "Stroke" row m]
  | None => []
  end.

Definition build_assign_rows (bow stroke : list Paddler) : list AssignRow :=
  let max_rows := Nat.min 10 (Nat.max (List.length bow) (List.length stroke)) in
  flat_map (rows_at bow stroke) (seq 0 max_rows).

(** A line of the "Balance Suggestions" list.  The swap suggestion is the
    f-string built from the two labels and the two rows it names; the
    other lines are fixed texts. *)
Inductive Suggestion :=
| Swap (heavy_label : string) (heavy_p : AssignRow)
       (light_label : string) (light_p : AssignRow)
| Note (text : string).

Definition front_heavier_text : string :=
  "Front is heavier; move one mid/front paddler toward seats 7-10.".
Definition back_heavier_text : string :=
  "Back is heavier; move one back paddler toward seats 1-4.".
Definition balanced_text : string :=
  "Setup already close to balanced; minor tweaks only if crew preference allows.".
Definition overflow_text : string :=
  "Showing first 10 seats per side (extra paddlers were not seated).".

(** [x > y] on floats. *)
Definition Qgt_bool (x y : Q) : bool := negb (Qle_bool x y).

(** [if abs(diff_lr) > 5 and bow_assign and stroke_assign: ...]. *)
Definition swap_suggestion (assign_rows : list AssignRow) (d_lr : Q)
  : list Suggestion :=
  let bow_assign := filter (side_is "bow") assign_rows in
  let stroke_assign := filter (side_is "stroke") assign_rows in
  if Qgt_bool (Qabs d_lr) 5 then
    match bow_assign, stroke_assign with
    | b0 :: bs, s0 :: ss =>
        if Qgt_bool d_lr 0
        then [Swap "Bow" (max_from row_weight b0 bs)
                   "Stroke" (min_from row_weight s0 ss)]
        else [Swap "Stroke" (max_from row_weight s0 ss)
                   "Bow" (min_from row_weight b0 bs)]
    | _, _ => []
    end
  else [].

(** [if abs(diff_fb) > 5: ...]. *)
Definition move_suggestion (d_fb : Q) : list Suggestion :=
  if Qgt_bool (Qabs d_fb) 5 then
    if Qgt_bool d_fb 0 then [Note front_heavier_text]
    else [Note back_heavier_text]
  else [].

(** The suggestions block, run when [metrics] is not the empty dict. *)
Definition balance_suggestions (assign_rows : list AssignRow)
  (metrics : BalanceMetrics) : list Suggestion :=
  let suggestions :=
    swap_suggestion assign_rows (diff_lr metrics)
    ++ move_suggestion (diff_fb metrics) in
  match suggestions with
  | [] => [Note balanced_text]
  | _ => suggestions
  end.

(** What one run of the handler computes and shows. *)
Record Assignment := {
  bow_members : list Paddler;    (* after the distribution *)
  stroke_members : list Paddler;
  bow : list Paddler;            (* the seated paddlers, seat 1 first *)
  stroke : list Paddler;
  info : option string;          (* the [st.info] overflow report *)
  assign_rows : list AssignRow;
  metrics : option BalanceMetrics;
  suggestions : option (list Suggestion)
}.

Definition no_preference (m : Paddler) : bool :=
  negb (position_is "bow" m || position_is "stroke" m).

Definition assign_seating (members : list Paddler) : Assignment :=
  let bow0 := filter (position_is "bow") members in
  let stroke0 := filter (position_is "stroke") members in
  let others := filter no_preference members in
  let sides := distribute_others_by_weight bow0 stroke0 others in
  let bow_side := build_side_with_roles (fst sides) in
  let stroke_side := build_side_with_roles (snd sides) in
  let rows := build_assign_rows bow_side stroke_side in
  let mt := compute_balance_metrics rows in
  {| bow_members := fst sides;
     stroke_members := snd sides;
     bow := bow_side;
     stroke := stroke_side;
     info :=
       if ((10 <? List.length (fst sides)) || (10 <? List.length (snd sides)))%nat
       then Some overflow_text else None;
     assign_rows := rows;
     metrics := mt;
     suggestions := option_map (balance_suggestions rows) mt |}.

(** The handler runs only under [if st.session_state.dragon_members:]. *)
Definition assign_seating_handler (members : list Paddler)
  : option Assignment :=
  match members with
  | [] => None
  | _ => Some (assign_seating members)
  end.

(* ================================================================== *)
(** ** Roster CSV export and import *)

(** A value held by a pandas frame or by a dict given to it: a string, a
    number, or NaN (a missing value). *)
Inductive Cell :=
| CStr (s : string)
| CNum (q : Q)
| CNaN.

(** A Python dict with string keys, in insertion order. *)
Definition Dict := list (string * Cell).

Fixpoint dict_get (d : Dict) (k : string) : option Cell :=
  match d with
  | [] => None
  | (k', v) :: r => if String.eqb k' k then Some v else dict_get r k
  end.

(** A frame: its column labels and, per row, one cell per column. *)
Record DataFrame := {
  columns : list string;
  records : list (list Cell)
}.

Definition mem_string (s : string) (l : list string) : bool :=
  existsb (String.eqb s) l.

(** [pd.DataFrame(rows)] for a list of dicts: the columns are the keys in
    the order in which they first appear, a key a dict lacks is NaN. *)
Definition add_keys (cols : list string) (d : Dict) : list string :=
  fold_left
    (fun cs kv => if mem_string (fst kv) cs then cs else cs ++ [fst kv])
    d cols.

Definition DataFrame_of_dicts (rows : list Dict) : DataFrame :=
  let cols := fold_left add_keys rows [] in
  {| columns := cols;
     records :=
       map (fun d =>
              map (fun c => match dict_get d c with
                            | Some v => v
                            | None => CNaN
                            end) cols) rows |}.

(** [r.get(label, default)] on a row of a frame with columns [cols]. *)
Fixpoint row_get (cols : list string) (r : list Cell) (label : string)
  (default : Cell) : Cell :=
  match cols, r with
  | c :: cs, v :: vs =>
      if String.eqb c label then v else row_get cs vs label default
  | _, _ => default
  end.

(** [df[cols]]. *)
Definition select_columns (cols : list string) (df : DataFrame) : DataFrame :=
  {| columns := cols;
     records :=
       map (fun r => map (fun c => row_get (columns df) r c CNaN) cols)
         (records df) |}.

(** The part of pandas the two functions call.  A [None] stands for a
    raised exception. *)
Class Pandas := {
  (** [df.to_csv(index=False).encode('utf-8')] *)
  to_csv : DataFrame -> string;
  (** [pd.read_csv(io.BytesIO(csv_bytes))] *)
  read_csv : string -> option DataFrame;
  (** [pd.read_csv(io.StringIO(csv_bytes.decode('utf-8')))] *)
  read_csv_text : string -> option DataFrame
}.

(** Python's [float(s)] on a string ([None]: [ValueError]) and [str(x)] on
    a float. *)
Class PyFloat := {
  float_of_str : string -> option Q;
  str_of_float : Q -> string
}.

(** The dict stored in the roster for a paddler. *)
Definition dict_of_paddler (m : Paddler) : Dict :=
  [("name", CStr (name m)); ("weight", CNum (weight m));
   ("level", CStr (level m)); ("position", CStr (position m));
   ("classification", CStr (classification m)); ("role", CStr (role m))].

Definition roster_fieldnames : list string :=
  ["name"; "weight"; "level"; "position"; "classification"; "role"].

Section Csv.
Context {pd : Pandas} {py : PyFloat}.

Definition dicts_to_csv_bytes (rows : list Dict) (fieldnames : list string)
  : string :=
  match rows with
  | [] => ""
  | _ =>
      let df := DataFrame_of_dicts rows in
      let cols := filter (fun c => mem_string c (columns df)) fieldnames in
      to_csv (match cols with
              | [] => df
              | _ => select_columns cols df
              end)
  end.

(** [mapping.get(key, '')], where [mapping[key] = df_cols[key]] and
    [df_cols = {c.lower(): c for c in df.columns}]: the last column
    whose lower-cased label is [key]. *)
Definition mapped_column (cols : list string) (key : string) : string :=
  fold_left (fun found c => if String.eqb (lower c) key then c else found)
    cols "".

(** [str(v)]. *)
Definition str (v : Cell) : string :=
  match v with
  | CStr s => s
  | CNum q => str_of_float q
  | CNaN => "nan"
  end.

(** The [try: ... except Exception: entry['weight'] = 0.0] block. *)
Definition weight_of_cell (w : Cell) : Q :=
  match w with
  | CStr "" => 0
  | CStr s => match float_of_str s with Some q => q | None => 0 end
  | CNum q => q
  | CNaN => 0
  end.

Definition entry_of_row (cols : list string) (r : list Cell) : Paddler :=
  let field key := strip (str (row_get cols r (mapped_column cols key) (CStr ""))) in
  {| name := field "name";
     weight := weight_of_cell
                 (row_get cols r (mapped_column cols "weight") (CStr ""));
     level := field "level";
     position := field "position";
     classification := field "classification";
     role := field "role" |}.

(** The loop over [df.iterrows()]. *)
Definition rows_of_frame (df : DataFrame) : list Paddler :=
  filter (fun e => nonempty (name e))
    (map (entry_of_row (columns df)) (records df)).

Definition import_roster_from_csv_bytes (csv_bytes : string)
  : list Paddler :=
  match csv_bytes with
  | "" => []
  | _ =>
      match read_csv csv_bytes with
      | Some df => rows_of_frame df
      | None =>
          match read_csv_text csv_bytes with
          | Some df => rows_of_frame df
          | None => []
          end
      end
  end.
End Csv.

(* ================================================================== *)
(** ** The specification's side

    The definitions below follow the words of the specification, not the
    code; the theorems compare the two. *)

(** A list in descending order of weight. *)
Definition descending {A : Type} (key : A -> Q) (l : list A) : Prop :=
  StronglySorted (fun x y => key y <= key x) l.

(** [l'] keeps the elements of each weight in the order they have in [l]. *)
Definition keeps_order_of_ties {A : Type} (key : A -> Q) (l l' : list A)
  : Prop :=
  forall q, filter (fun x => Qeq_bool (key x) q) l'
            = filter (fun x => Qeq_bool (key x) q) l.

(** "Descending by weight, ties keep original order". *)
Definition stable_descending_sort {A : Type} (key : A -> Q) (l l' : list A)
  : Prop :=
  Permutation l l' /\ descending key l' /\ keeps_order_of_ties key l l'.

(** The three roles; "Engine" is the default role. *)
Inductive RoleName := Pacer | Engine | Rocket.

Definition same_role (r r' : RoleName) : bool :=
  match r, r' with
  | Pacer, Pacer | Engine, Engine | Rocket, Rocket => true
  | _, _ => false
  end.

(** "Bucket paddlers into Pacer / Rocket / Engine (default role)
    groups": the role a paddler counts as. *)
Definition counts_as (m : Paddler) : RoleName :=
  if String.eqb (lower (role m)) "pacer" then Pacer
  else if String.eqb (lower (role m)) "rocket" then Rocket
  else Engine.

(** The members of a role, in roster order. *)
Definition of_role (r : RoleName) (members : list Paddler) : list Paddler :=
  filter (fun m => same_role (counts_as m) r) members.

(** The paddlers not yet seated, role by role. *)
Definition Pool := RoleName -> list Paddler.

Definition pool_of (members : list Paddler) : Pool :=
  fun r => of_role r members.

Definition with_bucket (r : RoleName) (l : list Paddler) (p : Pool) : Pool :=
  fun r' => if same_role r' r then l else p r'.

(** "The heaviest remaining" member of a bucket, the earliest one among
    equals, and the bucket without it. *)
Fixpoint take_heaviest (l : list Paddler) : option (Paddler * list Paddler) :=
  match l with
  | [] => None
  | y :: ys =>
      match take_heaviest ys with
      | None => Some (y, [])
      | Some (x, ys') =>
          if Qle_bool (weight x) (weight y) then Some (y, ys)
          else Some (x, y :: ys')
      end
  end.

(** "Each pull removes the heaviest remaining member of the first
    non-empty bucket in its priority list." *)
Fixpoint pull (priority : list RoleName) (p : Pool)
  : option Paddler * Pool :=
  match priority with
  | [] => (None, p)
  | r :: rest =>
      match take_heaviest (p r) with
      | Some (x, l') => (Some x, with_bucket r l' p)
      | None => pull rest p
      end
  end.

Definition front_priority : list RoleName := [Pacer; Engine; Rocket].
Definition back_priority : list RoleName := [Rocket; Engine; Pacer].
Definition middle_priority : list RoleName := [Engine; Pacer; Rocket].

(** "Unfilled slots are omitted, slot order is kept." *)
Definition filled (slots : list (option Paddler)) : list Paddler :=
  flat_map (fun s => match s with Some m => [m] | None => [] end) slots.

(** Slots 1 and 2, then 10 and 9, then 3 to 8; unfilled slots omitted. *)
Definition seat_packer_spec (members : list Paddler) : list Paddler :=
  let p := pool_of members in
  let '(s1, p) := pull front_priority p in
  let '(s2, p) := pull front_priority p in
  let '(s10, p) := pull back_priority p in
  let '(s9, p) := pull back_priority p in
  let '(s3, p) := pull middle_priority p in
  let '(s4, p) := pull middle_priority p in
  let '(s5, p) := pull middle_priority p in
  let '(s6, p) := pull middle_priority p in
  let '(s7, p) := pull middle_priority p in
  let '(s8, _) := pull middle_priority p in
  filled [s1; s2; s3; s4; s5; s6; s7; s8; s9; s10].

(** The role whose bucket a list of the code is, and what relates the
    three sorted lists of the code to a pool: each list is the bucket of
    its role as [sorted] orders it. *)
Definition role_of_group (g : Group) : RoleName :=
  match g with
  | Pacers => Pacer
  | Engines => Engine
  | Rockets => Rocket
  end.

Definition holds (b : Buckets) (p : Pool) : Prop :=
  forall g, group_of g b = sorted_reverse weight_of (p (role_of_group g)).

(** "Total summed weight" of a side: its weights added one after the
    other in list order, as floats. *)
Fixpoint add_weights (acc : Q) (side : list Paddler) : Q :=
  match side with
  | [] => acc
  | m :: rest => add_weights (fadd acc (weight m)) rest
  end.

Definition summed_weight (side : list Paddler) : Q := add_weights 0 side.





(** A completed seat assignment: at least one row, seats numbered 1 to 10,
    sides named "Bow" or "Stroke". *)
Definition completed_assignment (rows : list AssignRow) : Prop :=
  rows <> [] /\
  Forall (fun r => (1 <= Seat r <= 10)%Z /\
                   (Side r = "Bow" \/ Side r = "Stroke")) rows.


(** [r] is a heaviest, or a lightest, row of [side]. *)
Definition heaviest_of (side : list AssignRow) (r : AssignRow) : Prop :=
  In r side /\ forall x, In x side -> Weight x <= Weight r.
Definition lightest_of (side : list AssignRow) (r : AssignRow) : Prop :=
  In r side /\ forall x, In x side -> Weight r <= Weight x.

(** "Identify the heaviest paddler on the heavier side and the lightest
    paddler on the lighter side; suggest swapping them." *)
Definition names_the_swap (rows : list AssignRow) (d_lr : Q)
  (s : Suggestion) : Prop :=
  let bow_rows := filter (side_is "bow") rows in
  let stroke_rows := filter (side_is "stroke") rows in
  match s with
  | Swap heavy_label heavy_p light_label light_p =>
      (0 < d_lr ->
       heavy_label = "Bow" /\ light_label = "Stroke" /\
       heaviest_of bow_rows heavy_p /\ lightest_of stroke_rows light_p) /\
      (d_lr <= 0 ->
       heavy_label = "Stroke" /\ light_label = "Bow" /\
       heaviest_of stroke_rows heavy_p /\ lightest_of bow_rows light_p)
  | Note _ => False
  end.

(** "Suggest moving a paddler toward the lighter zone without naming a
    specific paddler": one of the two fixed texts. *)
Definition names_the_move (d_fb : Q) (s : Suggestion) : Prop :=
  (0 < d_fb -> s = Note front_heavier_text) /\
  (d_fb <= 0 -> s = Note back_heavier_text).

(** The suggestion rules as the specification states them. *)
Definition suggestions_as_stated (rows : list AssignRow)
  (m : BalanceMetrics) (out : list Suggestion) : Prop :=
  (5 < Qabs (diff_lr m) ->
   exists s, In s out /\ names_the_swap rows (diff_lr m) s) /\
  (5 < Qabs (diff_fb m) ->
   exists s, In s out /\ names_the_move (diff_fb m) s) /\
  (out = [Note balanced_text] <->
   ~ 5 < Qabs (diff_lr m) /\ ~ 5 < Qabs (diff_fb m)).

(** The rules as the handler applies them: the swap rule also needs a
    seated paddler on each side. *)
Definition both_sides_seated (rows : list AssignRow) : Prop :=
  filter (side_is "bow") rows <> [] /\ filter (side_is "stroke") rows <> [].

Definition suggestions_as_built (rows : list AssignRow)
  (m : BalanceMetrics) (out : list Suggestion) : Prop :=
  (5 < Qabs (diff_lr m) /\ both_sides_seated rows ->
   exists s, In s out /\ names_the_swap rows (diff_lr m) s) /\
  (5 < Qabs (diff_fb m) ->
   exists s, In s out /\ names_the_move (diff_fb m) s) /\
  (out = [Note balanced_text] <->
   ~ (5 < Qabs (diff_lr m) /\ both_sides_seated rows) /\
   ~ 5 < Qabs (diff_fb m)).

(** The absolute difference of the two sides' totals. *)
Definition side_gap (st : list Paddler * list Paddler) : Q :=
  Qabs (summed_weight (fst st) - summed_weight (snd st)).


(** The total of the side a placement goes to: the smaller of the two,
    Bow's when they are equal. *)
Definition lighter_total (st : list Paddler * list Paddler) : Q :=
  if Qle_bool (summed_weight (fst st)) (summed_weight (snd st))
  then summed_weight (fst st) else summed_weight (snd st).


(** What a placement adds to the total of the side it goes to: the
    rounded sum of that total and the placed weight, less that total. *)
Definition added_by (p : Placement) : Q :=
  fadd (lighter_total (before p)) (weight (placed p))
  - lighter_total (before p).

(** The roster records as the import normalises them: text stripped. *)
Definition stripped (m : Paddler) : Paddler :=
  {| name := strip (name m); weight := weight m; level := strip (level m);
     position := strip (position m);
     classification := strip (classification m); role := strip (role m) |}.

(** The frame the roster export hands to [to_csv]: the six columns in
    their fixed order, one row of cells per paddler. *)
Definition cells_of_paddler (m : Paddler) : list Cell :=
  [CStr (name m); CNum (weight m); CStr (level m); CStr (position m);
   CStr (classification m); CStr (role m)].

Definition roster_frame (roster : list Paddler) : DataFrame :=
  {| columns := roster_fieldnames; records := map cells_of_paddler roster |}.




(** A record the import leaves as it is: text fields without surrounding
    whitespace, name not empty. *)
Definition clean (m : Paddler) : Prop :=
  stripped m = m /\ name m <> "".

(** The ways a weight is missing or unparsable: no weight column, an
    empty or NaN cell, a text [float] rejects. *)
Definition no_weight_column (cols : list string) : Prop :=
  Forall (fun c => lower c <> "weight" /\ c <> "") cols.

Definition unusable_weight {py : PyFloat} (w : Cell) : Prop :=
  w = CStr "" \/ w = CNaN \/
  exists s, w = CStr s /\ float_of_str s = None.

(* ================================================================== *)
(** ** Sample rosters *)

Definition paddler (n : string) (w : Q) (pos r : string) : Paddler :=
  {| name := n; weight := w; level := "A"; position := pos;
     classification := "Alpha"; role := r |}.


(** Ten paddlers of 10 kg who all prefer Bow. *)
Definition roster_ten_bow : list Paddler :=
  repeat (paddler "P" 10 "Bow" "Engine") 10.

(** A stand-in for pandas that holds one file: whatever is written, the
    bytes are ["table"], and reading them gives the frame [df]. *)
Definition single_file_pandas (df : DataFrame) : Pandas :=
  {| to_csv := fun _ => "table";
     read_csv := fun b => if String.eqb b "table" then Some df else None;
     read_csv_text := fun _ => None |}.

(** A stand-in for [float] and [str] that parses no text. *)
Definition no_float : PyFloat :=
  {| float_of_str := fun _ => None; str_of_float := fun _ => "0.0" |}.

(** A frame as [read_csv] may return it: a name with spaces around it and
    a weight that is no number, a blank name, a missing weight. *)
Definition sample_frame : DataFrame :=
  {| columns := ["Name"; "Weight"; "Role"];
     records := [[CStr " Al "; CStr "abc"; CStr "Pacer"];
                 [CStr "  "; CNum 70; CNaN];
                 [CStr "Bo"; CNaN; CStr "Rocket"]] |}.


(** What [read_csv] returns for a file with the header [name,weight] and
    the one row [,70]: the empty name cell is a missing value. *)
Definition frame_without_name : DataFrame :=
  {| columns := ["name"; "weight"]; records := [[CNaN; CNum 70]] |}.

(** Two sides of three paddlers whose weights, read as decimals, add up
    to 214.9 on either side. *)
Definition bow_close : list Paddler :=
  map (fun w => paddler "B" (float_literal w) "Bow" "Engine")
    [77; 714 # 10; 665 # 10].
Definition stroke_close : list Paddler :=
  map (fun w => paddler "S" (float_literal w) "Stroke" "Engine")
    [593 # 10; 699 # 10; 857 # 10].

(** No-preference paddlers of 99.6, 99.6 and 88.2 kg. *)
Definition roster_rounding : list Paddler :=
  map (fun w => paddler "N" (float_literal w) "none" "Engine")
    [996 # 10; 996 # 10; 882 # 10].

(** Eleven paddlers who all prefer Bow. *)
Definition roster_eleven_bow : list Paddler :=
  map (fun w => paddler "P" (inject_Z (Z.of_nat w)) "Bow" "Engine")
    (seq 60 11).

(** The scenario of the specification: A (80, Bow, Pacer) and
    B (70, Stroke, Engine). *)
Definition roster_AB : list Paddler :=
  [paddler "A" 80 "Bow" "Pacer"; paddler "B" 70 "Stroke" "Engine"].

(* ================================================================== *)
(** ** Roster display order: [sort_roster] *)

(** [str.upper] on ASCII letters; the result is only looked up among the
    keys "A" to "D", which no text with a character outside ASCII
    reaches. *)
Definition upper_ascii (c : ascii) : ascii :=
  let n := nat_of_ascii c in
  if ((97 <=? n) && (n <=? 122))%nat then ascii_of_nat (n - 32) else c.

Fixpoint upper (s : string) : string :=
  match s with
  | EmptyString => EmptyString
  | String c r => String (upper_ascii c) (upper r)
  end.

Section SortedBy.
Context {A K : Type}.
Variable leb : K -> K -> bool.
Variable key : A -> K.

(** The test that lets [x] go in front of [y]: [key x <= key y], or
    [key y <= key x] under [reverse=True].  Equal keys pass it, so an
    element stays in front of the later elements it ties with. *)
Definition goes_before (reverse : bool) (x y : A) : bool :=
  if reverse then leb (key y) (key x) else leb (key x) (key y).

Fixpoint insert_by (reverse : bool) (x : A) (l : list A) : list A :=
  match l with
  | [] => [x]
  | y :: ys =>
      if goes_before reverse x y then x :: y :: ys
      else y :: insert_by reverse x ys
  end.

(** [sorted(l, key=key, reverse=reverse)]. *)
Definition sorted_by (reverse : bool) (l : list A) : list A :=
  fold_right (insert_by reverse) [] l.



End SortedBy.

(** [(r.get('name') or '').lower()]. *)
Definition name_key (r : Paddler) : string := lower (name r).

(** [order.get((r.get('level') or '').upper(), 99)] with
    [order = {"A": 0, "B": 1, "C": 2, "D": 3}]. *)
Definition level_key (r : Paddler) : nat :=
  let l := upper (level r) in
  if String.eqb l "A" then 0
  else if String.eqb l "B" then 1
  else if String.eqb l "C" then 2
  else if String.eqb l "D" then 3
  else 99.

(** [order.get((r.get('classification') or ''), 99)] with
    [order = {"Alpha": 0, "Bravo": 1}]. *)
Definition classification_key (r : Paddler) : nat :=
  if String.eqb (classification r) "Alpha" then 0
  else if String.eqb (classification r) "Bravo" then 1
  else 99.

(** [method = method or "None"]: a missing method is the empty string. *)
Definition sort_roster (rows : list Paddler) (method : string)
  : list Paddler :=
  match rows with
  | [] => []
  | _ =>
      let method := if nonempty method then method else "None" in
      if String.eqb method "None" then rows
      else if String.eqb method "Name (A→Z)" then
        sorted_by String.leb name_key false rows
      else if String.eqb method "Name (Z→A)" then
        sorted_by String.leb name_key true rows
      else if String.eqb method "Weight (Light→Heavy)" then
        sorted_by Qle_bool weight_of false rows
      else if String.eqb method "Weight (Heavy→Light)" then
        sorted_by Qle_bool weight_of true rows
      else if String.eqb method "Level (A→D)" then
        sorted_by Nat.leb level_key false rows
      else if String.eqb method "Level (D→A)" then
        sorted_by Nat.leb level_key true rows
      else if String.eqb method "Alpha/Bravo (Alpha first)" then
        sorted_by Nat.leb classification_key false rows
      else if String.eqb method "Alpha/Bravo (Bravo first)" then
        sorted_by Nat.leb classification_key true rows
      else rows
  end.


(** Three paddlers out of name, weight and level order. *)
Definition roster_mixed : list Paddler :=
  [ {| name := "cy"; weight := 70; level := "b"; position := "Bow";
       classification := "Bravo"; role := "Engine" |};
    {| name := "Al"; weight := 90; level := "D"; position := "Stroke";
       classification := "alpha"; role := "Pacer" |};
    {| name := "Bo"; weight := 70; level := "A"; position := "none";
       classification := "Alpha"; role := "Rocket" |} ].

(* ================================================================== *)
(** ** Sidebar dashboard *)

(** [sum(1 for m in members if p(m))]. *)
Definition count_if {A : Type} (p : A -> bool) (members : list A) : nat :=
  fold_left (fun acc _ => (acc + 1)%nat) (filter p members) 0%nat.

(** [(m.get('classification') or '').lower() == c]. *)
Definition classification_is (c : string) (m : Paddler) : bool :=
  String.eqb (lower (classification m)) c.

Definition bow_count (members : list Paddler) : nat :=
  count_if (position_is "bow") members.
Definition stroke_count (members : list Paddler) : nat :=
  count_if (position_is "stroke") members.
Definition alpha_count (members : list Paddler) : nat :=
  count_if (classification_is "alpha") members.
Definition bravo_count (members : list Paddler) : nat :=
  count_if (classification_is "bravo") members.

(* ================================================================== *)
(** ** Session state and the page's actions *)

(** [st.session_state]: the roster, the last assignment shown and the
    name of the last imported file. *)
Record Session := {
  dragon_members : list Paddler;
  dragon_assignment : list AssignRow;
  last_uploaded_file : option string
}.

Definition initial_session : Session :=
  {| dragon_members := []; dragon_assignment := [];
     last_uploaded_file := None |}.

(** The choices the form's select boxes offer. *)
Inductive LevelChoice := LevelA | LevelB | LevelC | LevelD.
Inductive PositionChoice := ChooseBow | ChooseStroke.
Inductive ClassChoice := ChooseAlpha | ChooseBravo.
Inductive RoleChoice := ChoosePacer | ChooseEngine | ChooseRocket.

Definition level_text (c : LevelChoice) : string :=
  match c with
  | LevelA => "A" | LevelB => "B" | LevelC => "C" | LevelD => "D"
  end.
Definition position_text (c : PositionChoice) : string :=
  match c with ChooseBow => "Bow" | ChooseStroke => "Stroke" end.
Definition class_text (c : ClassChoice) : string :=
  match c with ChooseAlpha => "Alpha" | ChooseBravo => "Bravo" end.
Definition role_text (c : RoleChoice) : string :=
  match c with
  | ChoosePacer => "Pacer" | ChooseEngine => "Engine"
  | ChooseRocket => "Rocket"
  end.

(** What the user does on the page: submit the form, press "Clear
    Roster", press "Import CSV to Roster" on an uploaded file, press
    "Assign Seating". *)
Inductive Event :=
| AddMember (n : string) (w : Q) (lv : LevelChoice) (pos : PositionChoice)
            (cl : ClassChoice) (r : RoleChoice)
| ClearRoster
| ImportCsv (file_name : string) (data : string)
| AssignSeating.

(** The messages the page shows in answer ([st.warning], [st.success],
    [st.info]) and the lines of the suggestion list; the tables and the
    diagram are not part of the model. *)
Inductive Shown :=
| st_warning (text : string)
| st_success (text : string)
| st_info (text : string)
| st_suggestion (s : Suggestion).

Definition enter_name_text : string := "Please enter a name.".
Definition no_valid_rows_text : string :=
  "No valid rows found in uploaded CSV.".
Definition assigned_text : string :=
  "Seating assigned by Bow/Stroke preference.".

Section Page.
Context {pd : Pandas} {py : PyFloat}.

(** One action on the session: the new state and what is shown. *)
Definition handle (s : Session) (e : Event) : Session * list Shown :=
  match e with
  | AddMember n w lv pos cl r =>
      if nonempty n then
        ({| dragon_members :=
              dragon_members s
              ++ [ {| name := n; weight := w; level := level_text lv;
                      position := position_text pos;
                      classification := class_text cl;
                      role := role_text r |} ];
            dragon_assignment := dragon_assignment s;
            last_uploaded_file := last_uploaded_file s |},
         [st_success ("Added " ++ n)])
      else (s, [st_warning enter_name_text])
  | ClearRoster =>
      ({| dragon_members := []; dragon_assignment := [];
          last_uploaded_file := last_uploaded_file s |}, [])
  | ImportCsv file_name data =>
      match import_roster_from_csv_bytes data with
      | [] => (s, [st_warning no_valid_rows_text])
      | new_rows =>
          (* [st.success] is followed by [st.rerun()], which redraws the
             page without the message *)
          ({| dragon_members := dragon_members s ++ new_rows;
              dragon_assignment := dragon_assignment s;
              last_uploaded_file := Some file_name |}, [])
      end
  | AssignSeating =>
      match assign_seating_handler (dragon_members s) with
      | None => (s, [])
      | Some a =>
          ({| dragon_members := dragon_members s;
              dragon_assignment := assign_rows a;
              last_uploaded_file := last_uploaded_file s |},
           match info a with Some t => [st_info t] | None => [] end
           ++ [st_success assigned_text]
           ++ match suggestions a with
              | Some l => map st_suggestion l
              | None => []
              end)
      end
  end.

(** The session after a sequence of actions. *)
Definition run (s : Session) (es : list Event) : Session :=
  fold_left (fun s e => fst (handle s e)) es s.
End Page.

(** An action that does not go through the CSV import. *)
Definition form_event (e : Event) : Prop :=
  match e with
  | ImportCsv _ _ => False
  | AddMember _ w _ _ _ _ => 0 <= w
  | _ => True
  end.

(** A stated side preference. *)
Definition has_preference (m : Paddler) : Prop :=
  position_is "bow" m = true \/ position_is "stroke" m = true.

(* ================================================================== *)
(** ** Balance cross: [render_balance_cross] *)






(* ================================================================== *)
(** ** Seat numbering *)

(** The rows of one side as the handler numbers them: the paddler at
    index [i] of the side's list gets seat [i + 1]. *)
Definition numbered (side : string) (l : list Paddler) : list AssignRow :=
  map (fun im => seat_row side (fst im) (snd im))
    (combine (seq 0 (List.length l)) l).

(** Three form entries and a press on "Assign Seating". *)
Definition form_session : list Event :=
  [AddMember "A" 80 LevelA ChooseBow ChooseAlpha ChoosePacer;
   AddMember "" 75 LevelB ChooseBow ChooseBravo ChooseEngine;
   AddMember "B" 70 LevelC ChooseStroke ChooseBravo ChooseEngine;
   AssignSeating].

(* ================================================================== *)
(** ** Assignment CSV export *)

(** The dict the handler stores for a row of the assignment. *)
Definition dict_of_row (r : AssignRow) : Dict :=
  [("Seat", CNum (inject_Z (Seat r))); ("Side", CStr (Side r));
   ("Name", CStr (Name r)); ("Weight", CNum (Weight r));
   ("Level", CStr (Level r)); ("Classification", CStr (Classification r));
   ("Role", CStr (Role r))].

Definition assignment_fieldnames : list string :=
  ["Seat"; "Side"; "Name"; "Weight"; "Level"; "Classification"; "Role"].

Definition cells_of_row (r : AssignRow) : list Cell :=
  [CNum (inject_Z (Seat r)); CStr (Side r); CStr (Name r);
   CNum (Weight r); CStr (Level r); CStr (Classification r);
   CStr (Role r)].

Definition assignment_frame (rows : list AssignRow) : DataFrame :=
  {| columns := assignment_fieldnames; records := map cells_of_row rows |}.

(* ================================================================== *)
(** * Theorems *)

(** ** Strings *)

Lemma not_bow_and_stroke (m : Paddler) :
  position_is "bow" m = true -> position_is "stroke" m = false.
Proof.
  unfold position_is. intros H.
  apply String.eqb_eq in H. rewrite H. reflexivity.
Qed.

Lemma not_stroke_and_bow (m : Paddler) :
  position_is "stroke" m = true -> position_is "bow" m = false.
Proof.
  unfold position_is. intros H.
  apply String.eqb_eq in H. rewrite H. reflexivity.
Qed.

(** ** Stripping *)

Section Dropping.
Variable ws : list (list ascii).
Hypothesis ws_nonempty : Forall (fun w => w <> []) ws.

Lemma drop_prefix_spec (w l r : list ascii) :
  drop_prefix w l = Some r <-> l = w ++ r.
Proof.
  revert l. induction w as [|a w IH]; intros l; simpl.
  - split; congruence.
  - destruct l as [|b l]; [split; discriminate|].
    destruct (Ascii.eqb_spec a b) as [->|N].
    + rewrite IH. split; congruence.
    + split; [discriminate | congruence].
Qed.

Lemma drop_one_some (l r : list ascii) :
  drop_one ws l = Some r -> exists w, In w ws /\ w <> [] /\ l = w ++ r.
Proof.
  revert ws_nonempty. induction ws as [|w rest IH]; simpl; [discriminate|].
  intros Hne. inversion Hne as [|? ? Hw Hrest]; subst.
  destruct (drop_prefix w l) as [r'|] eqn:E.
  - intros [= ->]. apply drop_prefix_spec in E. exists w. auto.
  - intro H. destruct (IH Hrest H) as (w' & Hin & Hne' & Hl). exists w'. auto.
Qed.

Lemma drop_one_none (l : list ascii) :
  drop_one ws l = None -> forall w r, In w ws -> l <> w ++ r.
Proof.
  clear ws_nonempty. induction ws as [|w0 rest IH]; simpl; [tauto|].
  destruct (drop_prefix w0 l) as [r'|] eqn:E; [discriminate|].
  intros H w r [<-|Hin] Hl.
  - apply drop_prefix_spec in Hl. congruence.
  - exact (IH H w r Hin Hl).
Qed.

Lemma drop_leading_clean (fuel : nat) (l : list ascii) :
  (List.length l <= fuel)%nat ->
  drop_one ws (drop_leading fuel ws l) = None.
Proof.
  revert l. induction fuel as [|n IH]; intros l Hl; simpl.
  - destruct l; [|simpl in Hl; lia].
    destruct (drop_one ws []) eqn:E; [|reflexivity].
    destruct (drop_one_some _ _ E) as (w & _ & Hne & Hw).
    destruct w; [congruence | discriminate].
  - destruct (drop_one ws l) as [r|] eqn:E; [|exact E].
    apply IH. destruct (drop_one_some _ _ E) as (w & _ & Hne & ->).
    rewrite length_app in Hl. destruct w; [congruence | simpl in Hl; lia].
Qed.

Lemma drop_leading_fixed (fuel : nat) (l : list ascii) :
  drop_one ws l = None -> drop_leading fuel ws l = l.
Proof.
  intro H. destruct fuel; simpl; [reflexivity | now rewrite H].
Qed.

Lemma drop_leading_suffix (fuel : nat) (l : list ascii) :
  exists d, l = d ++ drop_leading fuel ws l.
Proof.
  revert l. induction fuel as [|n IH]; intros l; simpl.
  - now exists [].
  - destruct (drop_one ws l) as [r|] eqn:E; [|now exists []].
    destruct (drop_one_some _ _ E) as (w & _ & _ & ->).
    destruct (IH r) as [d Hd]. exists (w ++ d). rewrite <- app_assoc.
    now rewrite <- Hd.
Qed.

End Dropping.

Lemma whitespace_nonempty : Forall (fun w => w <> []) whitespace.
Proof. unfold whitespace. repeat (constructor; [discriminate|]). constructor. Qed.

Lemma whitespace_rev_nonempty :
  Forall (fun w => w <> []) (map (@rev ascii) whitespace).
Proof. unfold whitespace. repeat (constructor; [discriminate|]). constructor. Qed.

Lemma lstrip_bytes_clean (l : list ascii) :
  drop_one whitespace (lstrip_bytes l) = None.
Proof. apply drop_leading_clean; [apply whitespace_nonempty | lia]. Qed.

(** What [rstrip] returns is a prefix of its argument. *)
Lemma rstrip_bytes_prefix (l : list ascii) :
  exists d, l = rstrip_bytes l ++ d.
Proof.
  unfold rstrip_bytes.
  destruct (drop_leading_suffix (map (@rev ascii) whitespace)
              whitespace_rev_nonempty (List.length l) (rev l)) as [d Hd].
  exists (rev d). rewrite <- rev_app_distr, <- Hd. now rewrite rev_involutive.
Qed.

Lemma rstrip_bytes_idem (l : list ascii) :
  rstrip_bytes (rstrip_bytes l) = rstrip_bytes l.
Proof.
  unfold rstrip_bytes. rewrite rev_involutive.
  f_equal. apply drop_leading_fixed.
  apply drop_leading_clean; [apply whitespace_rev_nonempty|].
  rewrite length_rev. lia.
Qed.

Lemma rstrip_keeps_clean (l : list ascii) :
  drop_one whitespace l = None -> drop_one whitespace (rstrip_bytes l) = None.
Proof.
  intro H. destruct (drop_one whitespace (rstrip_bytes l)) as [r|] eqn:E;
    [|reflexivity].
  destruct (drop_one_some _ whitespace_nonempty _ _ E) as (w & Hin & _ & Hw).
  destruct (rstrip_bytes_prefix l) as [d Hd].
  exfalso. apply (drop_one_none _ _ H w (r ++ d) Hin).
  rewrite Hd at 1. rewrite Hw. now rewrite app_assoc.
Qed.

Lemma strip_bytes_idem (l : list ascii) :
  rstrip_bytes (lstrip_bytes (rstrip_bytes (lstrip_bytes l))) =
  rstrip_bytes (lstrip_bytes l).
Proof.
  assert (H : lstrip_bytes (rstrip_bytes (lstrip_bytes l)) =
              rstrip_bytes (lstrip_bytes l)).
  { apply drop_leading_fixed, rstrip_keeps_clean, lstrip_bytes_clean. }
  rewrite H. apply rstrip_bytes_idem.
Qed.

Lemma strip_idem (s : string) : strip (strip s) = strip s.
Proof.
  unfold strip. rewrite list_ascii_of_string_of_list_ascii.
  now rewrite strip_bytes_idem.
Qed.

(** [strip] removes the whitespace of either kind, at either end. *)
Example strip_sample :
  strip "  Al " = "Al" /\ strip "" = "" /\ strip "   " = "" /\
  strip (string_of_list_ascii (utf8 [194; 160; 65; 108; 227; 128; 128]%nat))
  = "Al" /\
  lower (string_of_list_ascii (utf8 [83; 116; 114; 111; 226; 132; 170; 69]%nat))
  = "stroke".
Proof. repeat split. Qed.

(** ** Binary64 rounding *)






















(** The binary64 sums the specification's scenarios use. *)
Example float_sums :
  fadd (fadd (fadd 0 (float_literal (593 # 10))) (float_literal (699 # 10)))
    (float_literal (857 # 10))
  < fadd (fadd (fadd 0 (float_literal 77)) (float_literal (714 # 10)))
      (float_literal (665 # 10)) /\
  fadd (fadd (fadd 0 (float_literal 77)) (float_literal (714 # 10)))
    (float_literal (665 # 10)) = float_literal (2149 # 10) /\
  float_literal (882 # 10)
  < fsub (fadd (float_literal (996 # 10)) (float_literal (882 # 10)))
      (float_literal (996 # 10)) /\
  fadd 80 70 = 150 /\ fsub 80 70 = 10.
Proof. repeat split. Qed.

(** ** The stable descending sort *)

Section SortedFacts.
Context {A : Type}.
Variable key : A -> Q.

Lemma insert_desc_perm (x : A) (l : list A) :
  Permutation (x :: l) (insert_desc key x l).
Proof.
  induction l as [|y ys IH]; simpl.
  - apply Permutation_refl.
  - destruct (Qle_bool (key y) (key x)).
    + apply Permutation_refl.
    + eapply perm_trans; [apply perm_swap|].
      apply perm_skip, IH.
Qed.

Lemma sorted_reverse_perm (l : list A) :
  Permutation l (sorted_reverse key l).
Proof.
  induction l as [|x l IH]; simpl.
  - constructor.
  - eapply perm_trans; [apply perm_skip, IH|].
    apply insert_desc_perm.
Qed.

Lemma insert_desc_descending (x : A) (l : list A) :
  descending key l -> descending key (insert_desc key x l).
Proof.
  unfold descending.
  induction l as [|y ys IH]; simpl; intros Hs.
  - constructor; constructor.
  - destruct (Qle_bool (key y) (key x)) eqn:E.
    + apply Qle_bool_iff in E.
      constructor; [exact Hs|].
      constructor; [exact E|].
      inversion Hs as [|? ? _ Hall]; subst.
      eapply Forall_impl; [|exact Hall].
      intros z Hz. simpl in Hz. eapply Qle_trans; eassumption.
    + assert (Hlt : key x < key y).
      { apply Qnot_le_lt. intros Hle.
        apply Qle_bool_iff in Hle. congruence. }
      inversion Hs as [|? ? Hs' Hall]; subst.
      constructor; [apply IH, Hs'|].
      eapply Permutation_Forall; [apply insert_desc_perm|].
      constructor; [apply Qlt_le_weak, Hlt | exact Hall].
Qed.

Lemma sorted_reverse_descending (l : list A) :
  descending key (sorted_reverse key l).
Proof.
  induction l as [|x l IH]; simpl.
  - constructor.
  - apply insert_desc_descending, IH.
Qed.

Lemma insert_desc_ties (x : A) (l : list A) (q : Q) :
  filter (fun z => Qeq_bool (key z) q) (insert_desc key x l)
  = filter (fun z => Qeq_bool (key z) q) (x :: l).
Proof.
  induction l as [|y ys IH].
  - reflexivity.
  - simpl insert_desc.
    destruct (Qle_bool (key y) (key x)) eqn:E; [reflexivity|].
    change (filter (fun z => Qeq_bool (key z) q) (y :: insert_desc key x ys))
      with (if Qeq_bool (key y) q
            then y :: filter (fun z => Qeq_bool (key z) q) (insert_desc key x ys)
            else filter (fun z => Qeq_bool (key z) q) (insert_desc key x ys)).
    rewrite IH. simpl.
    destruct (Qeq_bool (key y) q) eqn:Ey;
      destruct (Qeq_bool (key x) q) eqn:Ex; try reflexivity.
    exfalso.
    apply Qeq_bool_iff in Ey. apply Qeq_bool_iff in Ex.
    assert (Hle : key y <= key x) by (rewrite Ey, Ex; apply Qle_refl).
    apply Qle_bool_iff in Hle. congruence.
Qed.

Lemma sorted_reverse_ties (l : list A) :
  keeps_order_of_ties key l (sorted_reverse key l).
Proof.
  intros q. induction l as [|x l IH].
  - reflexivity.
  - simpl sorted_reverse. rewrite insert_desc_ties.
    simpl. rewrite IH. reflexivity.
Qed.

(** The model of [sorted(..., reverse=True)] is a stable descending
    sort. *)
Lemma sorted_reverse_stable (l : list A) :
  stable_descending_sort key l (sorted_reverse key l).
Proof.
  split; [apply sorted_reverse_perm|].
  split; [apply sorted_reverse_descending | apply sorted_reverse_ties].
Qed.

Lemma sorted_reverse_length (l : list A) :
  List.length (sorted_reverse key l) = List.length l.
Proof. symmetry. apply Permutation_length, sorted_reverse_perm. Qed.


(** ** Sums *)

End SortedFacts.

(* ================================================================== *)
(** ** Side partitioner *)




Lemma place_cases (st : list Paddler * list Paddler) (o : Paddler) :
  place st o = (fst st ++ [o], snd st) \/ place st o = (fst st, snd st ++ [o]).
Proof.
  unfold place. destruct (Qle_bool _ _); [now left | now right].
Qed.



(** The loop only appends, and appends every paddler it was given. *)
Lemma fold_place_appends (os : list Paddler) :
  forall b s, exists xs ys,
    fold_left place os (b, s) = (b ++ xs, s ++ ys) /\
    Permutation (xs ++ ys) os.
Proof.
  induction os as [|o os IH]; intros b s; simpl.
  - exists [], []. rewrite !app_nil_r. split; [reflexivity | constructor].
  - destruct (place_cases (b, s) o) as [E|E]; rewrite E; simpl.
    + destruct (IH (b ++ [o]) s) as (xs & ys & Hf & Hp).
      exists (o :: xs), ys. rewrite Hf, <- app_assoc. simpl.
      split; [reflexivity | now apply perm_skip].
    + destruct (IH b (s ++ [o])) as (xs & ys & Hf & Hp).
      exists xs, (o :: ys). rewrite Hf, <- app_assoc. simpl.
      split; [reflexivity|].
      apply Permutation_sym, Permutation_cons_app, Permutation_sym, Hp.
Qed.

Lemma distribute_appends (bow_list stroke_list others : list Paddler) :
  exists xs ys,
    distribute_others_by_weight bow_list stroke_list others
    = (bow_list ++ xs, stroke_list ++ ys) /\
    Permutation (xs ++ ys) others.
Proof.
  unfold distribute_others_by_weight.
  destruct (fold_place_appends (sorted_reverse weight_of others)
              bow_list stroke_list) as (xs & ys & Hf & Hp).
  exists xs, ys. split; [exact Hf|].
  eapply perm_trans; [exact Hp|].
  apply Permutation_sym, sorted_reverse_perm.
Qed.

(** The trace ends in the state the function returns. *)
Lemma placements_last (os : list Paddler) :
  forall st o d,
    last (map after (placements st (o :: os))) d
    = fold_left place (o :: os) st.
Proof.
  induction os as [|o' os IH]; intros st o d.
  - reflexivity.
  - change (fold_left place (o :: o' :: os) st)
      with (fold_left place (o' :: os) (place st o)).
    rewrite <- (IH (place st o) o' d). reflexivity.
Qed.

Lemma placements_final (os : list Paddler) (st : list Paddler * list Paddler) :
  fold_left place os st = last (map after (placements st os)) st.
Proof.
  destruct os as [|o os]; [reflexivity|].
  symmetry. apply placements_last.
Qed.








(* ================================================================== *)
(** ** Seat packer *)

(** The three loops make the ten calls of [seat_calls] and store their
    results at indices 0, 1, 9, 8, 2, ..., 7. *)
Lemma fill_seats_calls (members : list Paddler) :
  snd (fill_seats members)
  = seats_of_calls (fst (pop_sequence seat_calls (role_buckets members))).
Proof. reflexivity. Qed.

Lemma take_heaviest_sorted (l : list Paddler) :
  match take_heaviest l with
  | None => l = []
  | Some (x, l') =>
      sorted_reverse weight_of l = x :: sorted_reverse weight_of l'
  end.
Proof.
  induction l as [|y ys IH]; [reflexivity|].
  simpl take_heaviest. destruct (take_heaviest ys) as [[x ys']|].
  - destruct (Qle_bool (weight x) (weight y)) eqn:E;
      simpl sorted_reverse; rewrite IH; simpl insert_desc;
      unfold weight_of; rewrite E; reflexivity.
  - subst ys. reflexivity.
Qed.

Lemma role_tests (m : Paddler) :
  role_is "pacer" m = same_role (counts_as m) Pacer /\
  is_engine m = same_role (counts_as m) Engine /\
  role_is "rocket" m = same_role (counts_as m) Rocket.
Proof.
  unfold is_engine, role_is, counts_as.
  destruct (String.eqb_spec (lower (role m)) "pacer") as [E|E].
  - rewrite E. repeat split.
  - destruct (String.eqb (lower (role m)) "rocket"); repeat split.
Qed.

Lemma role_buckets_hold (members : list Paddler) :
  holds (role_buckets members) (pool_of members).
Proof.
  intros g. unfold pool_of, of_role.
  destruct g; cbn [group_of role_buckets pacers engines rockets role_of_group];
    f_equal; apply filter_ext; intros m; apply role_tests.
Qed.

Lemma holds_without (g : Group) (l : list Paddler) (b : Buckets) (p : Pool) :
  holds b p ->
  holds (set_group g (sorted_reverse weight_of l) b)
    (with_bucket (role_of_group g) l p).
Proof.
  intros H g'. specialize (H g'). unfold with_bucket.
  destruct g, g'; cbn in *; try reflexivity; exact H.
Qed.

(** Popping the head of a sorted list is pulling the heaviest member of
    the bucket. *)
Lemma pop_pull (groups : list Group) (b : Buckets) (p : Pool) :
  holds b p ->
  fst (pop_heaviest groups b) = fst (pull (map role_of_group groups) p) /\
  holds (snd (pop_heaviest groups b))
    (snd (pull (map role_of_group groups) p)).
Proof.
  intros H. induction groups as [|g rest IH]; [now split|].
  cbn [map pop_heaviest pull]. rewrite (H g).
  pose proof (take_heaviest_sorted (p (role_of_group g))) as Hs.
  destruct (take_heaviest (p (role_of_group g))) as [[x l']|].
  - rewrite Hs. cbn [fst snd]. split; [reflexivity|].
    now apply holds_without.
  - rewrite Hs. exact IH.
Qed.

Lemma drop_none_filled (slots : list (option Paddler)) :
  drop_none slots = filled slots.
Proof.
  induction slots as [|[m|] slots IH]; simpl; [reflexivity | |exact IH].
  now rewrite IH.
Qed.

(** One call of [pop_heaviest] against one pull of the specification. *)
Ltac packer_step :=
  match goal with
  | H : holds ?b ?p |- context [pop_heaviest ?g ?b] =>
      let E := fresh "E" in
      let H' := fresh "H" in
      destruct (pop_pull g b p H) as [E H'];
      cbn [map role_of_group] in E, H';
      destruct (pull _ p) as [? ?];
      cbn [fst snd] in E, H';
      rewrite E; clear E H;
      let b' := fresh "b" in
      set (b' := snd (pop_heaviest g b)) in *; clearbody b'
  end.

Lemma build_side_follows_spec (members : list Paddler) :
  build_side_with_roles members = seat_packer_spec members.
Proof.
  unfold build_side_with_roles, seat_packer_spec.
  rewrite fill_seats_calls.
  pose proof (role_buckets_hold members) as H.
  generalize dependent (role_buckets members).
  generalize (pool_of members).
  intros p b H.
  unfold seat_calls, front_priority, back_priority, middle_priority.
  cbn [repeat app pop_sequence fst snd].
  do 10 packer_step.
  cbn [seats_of_calls]. apply drop_none_filled.
Qed.

Lemma pop_heaviest_some (groups : list Group) (b : Buckets) (x : Paddler) :
  fst (pop_heaviest groups b) = Some x ->
  Permutation (x :: remaining (snd (pop_heaviest groups b))) (remaining b).
Proof.
  induction groups as [|g rest IH]; simpl; [discriminate|].
  destruct (group_of g b) as [|y ys] eqn:E; [exact IH|].
  simpl. intros [= ->].
  destruct g; unfold remaining; simpl in *; rewrite E.
  - apply Permutation_refl.
  - apply Permutation_middle.
  - rewrite !app_assoc. apply Permutation_middle.
Qed.

Lemma pop_heaviest_none (groups : list Group) (b : Buckets) :
  fst (pop_heaviest groups b) = None ->
  (forall g, In g groups -> group_of g b = []) /\
  snd (pop_heaviest groups b) = b.
Proof.
  induction groups as [|g rest IH]; simpl.
  - intros _. split; [intros g []|reflexivity].
  - destruct (group_of g b) as [|y ys] eqn:E; [|discriminate].
    intros H. destruct (IH H) as [Hall Hb].
    split; [|exact Hb].
    intros g' [<-|Hin]; [exact E | now apply Hall].
Qed.

Lemma covers_none (groups : list Group) (b : Buckets) :
  covers groups ->
  fst (pop_heaviest groups b) = None ->
  remaining b = [] /\ snd (pop_heaviest groups b) = b.
Proof.
  intros Hc H. destruct (pop_heaviest_none _ _ H) as [Hall Hb].
  split; [|exact Hb].
  pose proof (Hall Pacers (Hc _)) as Hp.
  pose proof (Hall Engines (Hc _)) as He.
  pose proof (Hall Rockets (Hc _)) as Hr.
  simpl in Hp, He, Hr.
  unfold remaining. now rewrite Hp, He, Hr.
Qed.

Lemma pop_sequence_results (calls : list (list Group)) :
  forall b, List.length (fst (pop_sequence calls b)) = List.length calls.
Proof.
  induction calls as [|g rest IH]; intros b; simpl; [reflexivity|].
  now rewrite IH.
Qed.

(** Every paddler is either returned by a call or still in a list. *)
Lemma pop_sequence_perm (calls : list (list Group)) :
  forall b,
    Permutation
      (drop_none (fst (pop_sequence calls b))
       ++ remaining (snd (pop_sequence calls b)))
      (remaining b).
Proof.
  induction calls as [|g rest IH]; intros b; simpl.
  - apply Permutation_refl.
  - destruct (fst (pop_heaviest g b)) as [x|] eqn:E; simpl.
    + eapply perm_trans; [apply perm_skip, IH|].
      now apply pop_heaviest_some.
    + eapply perm_trans; [apply IH|].
      generalize (pop_heaviest_none _ _ E). intros [_ ->].
      apply Permutation_refl.
Qed.

(** Calls return paddlers for as long as there are any. *)
Lemma pop_sequence_count (calls : list (list Group)) :
  Forall covers calls ->
  forall b,
    List.length (drop_none (fst (pop_sequence calls b)))
    = Nat.min (List.length calls) (List.length (remaining b)).
Proof.
  induction 1 as [|g rest Hg Hrest IH]; intros b; simpl; [reflexivity|].
  destruct (fst (pop_heaviest g b)) as [x|] eqn:E; simpl.
  - rewrite IH.
    rewrite <- (Permutation_length (pop_heaviest_some _ _ _ E)).
    reflexivity.
  - destruct (covers_none _ _ Hg E) as [Hr Hb].
    rewrite IH, Hb, Hr. simpl. now rewrite Nat.min_0_r.
Qed.

Lemma seat_calls_cover : Forall covers seat_calls.
Proof.
  unfold seat_calls. simpl.
  repeat (apply Forall_cons; [intros []; simpl; tauto|]).
  apply Forall_nil.
Qed.

Lemma drop_none_perm {A : Type} (l l' : list (option A)) :
  Permutation l l' -> Permutation (drop_none l) (drop_none l').
Proof.
  induction 1 as [|x l l' _ IH|x y l|l l' l'' _ IH1 _ IH2]; simpl.
  - constructor.
  - destruct x; [now apply perm_skip | exact IH].
  - destruct x, y; try apply Permutation_refl. apply perm_swap.
  - eapply perm_trans; eassumption.
Qed.

Lemma seats_of_calls_perm (rs : list (option Paddler)) :
  List.length rs = 10%nat -> Permutation (seats_of_calls rs) rs.
Proof.
  intros H.
  do 10 (destruct rs as [|? rs]; [discriminate|]).
  destruct rs; [|discriminate]. simpl.
  do 2 apply perm_skip.
  match goal with
  | |- Permutation [?a; ?b; ?c; ?d; ?e; ?f; ?g; ?h] _ =>
      change (Permutation ([a; b; c; d; e; f] ++ [g; h])
                ([h; g] ++ [a; b; c; d; e; f]))
  end.
  eapply perm_trans; [apply Permutation_app_comm|].
  simpl. apply perm_swap.
Qed.

Lemma role_groups_perm (members : list Paddler) :
  Permutation (remaining (role_groups members)) members.
Proof.
  unfold remaining, role_groups. simpl.
  induction members as [|m l IH]; simpl; [constructor|].
  unfold is_engine at 1.
  destruct (role_is "pacer" m) eqn:Ep; simpl.
  - assert (Er : role_is "rocket" m = false).
    { unfold role_is in *. apply String.eqb_eq in Ep. now rewrite Ep. }
    rewrite Er. now apply perm_skip.
  - destruct (role_is "rocket" m) eqn:Er; simpl.
    + eapply perm_trans; [|apply perm_skip, IH].
      rewrite app_assoc. apply Permutation_sym.
      rewrite app_assoc. apply Permutation_middle.
    + eapply perm_trans; [|apply perm_skip, IH].
      apply Permutation_sym, Permutation_middle.
Qed.

Lemma role_buckets_perm (members : list Paddler) :
  Permutation (remaining (role_buckets members)) members.
Proof.
  eapply perm_trans; [|apply role_groups_perm].
  unfold remaining, role_buckets, role_groups. simpl.
  repeat apply Permutation_app; apply Permutation_sym, sorted_reverse_perm.
Qed.

(** The paddlers the ten calls leave in the three lists. *)
Lemma build_side_perm (members : list Paddler) :
  Permutation
    (build_side_with_roles members
     ++ remaining (snd (pop_sequence seat_calls (role_buckets members))))
    members.
Proof.
  unfold build_side_with_roles. rewrite fill_seats_calls.
  eapply perm_trans; [|apply role_buckets_perm].
  eapply perm_trans; [|apply pop_sequence_perm].
  apply Permutation_app_tail, drop_none_perm, seats_of_calls_perm.
  apply pop_sequence_results.
Qed.

Lemma build_side_length (members : list Paddler) :
  List.length (build_side_with_roles members)
  = Nat.min 10 (List.length members).
Proof.
  unfold build_side_with_roles. rewrite fill_seats_calls.
  rewrite (Permutation_length
             (drop_none_perm _ _
                (seats_of_calls_perm _ (pop_sequence_results seat_calls _)))).
  rewrite (pop_sequence_count _ seat_calls_cover).
  rewrite (Permutation_length (role_buckets_perm members)).
  reflexivity.
Qed.

Lemma build_side_In (members : list Paddler) (m : Paddler) :
  In m (build_side_with_roles members) -> In m members.
Proof.
  intros H. eapply Permutation_in; [apply build_side_perm|].
  apply in_or_app. now left.
Qed.

(* ================================================================== *)
(** ** The partition of the roster *)

Lemma partition_perm (members : list Paddler) :
  Permutation
    (filter (position_is "bow") members
     ++ filter (position_is "stroke") members
     ++ filter no_preference members)
    members.
Proof.
  induction members as [|m l IH]; simpl; [constructor|].
  unfold no_preference at 1.
  destruct (position_is "bow" m) eqn:Eb; simpl.
  - rewrite (not_bow_and_stroke m Eb). now apply perm_skip.
  - destruct (position_is "stroke" m) eqn:Es; simpl.
    + eapply perm_trans; [|apply perm_skip, IH].
      apply Permutation_sym, Permutation_middle.
    + eapply perm_trans; [|apply perm_skip, IH].
      rewrite app_assoc. apply Permutation_sym.
      rewrite app_assoc. apply Permutation_middle.
Qed.

(** The fields of the handler's result, one in terms of the other. *)
Ltac project_fields :=
  cbn [bow_members stroke_members bow stroke info assign_rows metrics
       suggestions].

Lemma assign_bow (members : list Paddler) :
  bow (assign_seating members)
  = build_side_with_roles (bow_members (assign_seating members)).
Proof. unfold assign_seating. project_fields. reflexivity. Qed.

Lemma assign_stroke (members : list Paddler) :
  stroke (assign_seating members)
  = build_side_with_roles (stroke_members (assign_seating members)).
Proof. unfold assign_seating. project_fields. reflexivity. Qed.

Lemma assign_info (members : list Paddler) :
  info (assign_seating members)
  = if ((10 <? List.length (bow_members (assign_seating members)))
        || (10 <? List.length (stroke_members (assign_seating members))))%nat
    then Some overflow_text else None.
Proof. unfold assign_seating. project_fields. reflexivity. Qed.

Lemma assign_rows_built (members : list Paddler) :
  assign_rows (assign_seating members)
  = build_assign_rows (bow (assign_seating members))
      (stroke (assign_seating members)).
Proof. unfold assign_seating. project_fields. reflexivity. Qed.

Lemma assign_metrics (members : list Paddler) :
  metrics (assign_seating members)
  = compute_balance_metrics (assign_rows (assign_seating members)).
Proof. unfold assign_seating. project_fields. reflexivity. Qed.

Lemma assign_suggestions (members : list Paddler) :
  suggestions (assign_seating members)
  = option_map (balance_suggestions (assign_rows (assign_seating members)))
      (metrics (assign_seating members)).
Proof. unfold assign_seating. project_fields. reflexivity. Qed.

(** What the distribution step returns to the handler. *)
Lemma assign_members (members : list Paddler) :
  exists xs ys,
    bow_members (assign_seating members)
    = filter (position_is "bow") members ++ xs /\
    stroke_members (assign_seating members)
    = filter (position_is "stroke") members ++ ys /\
    Permutation (xs ++ ys) (filter no_preference members).
Proof.
  destruct (distribute_appends (filter (position_is "bow") members)
              (filter (position_is "stroke") members)
              (filter no_preference members)) as (xs & ys & Hd & Hp).
  exists xs, ys.
  change (bow_members (assign_seating members))
    with (fst (distribute_others_by_weight
                 (filter (position_is "bow") members)
                 (filter (position_is "stroke") members)
                 (filter no_preference members))).
  change (stroke_members (assign_seating members))
    with (snd (distribute_others_by_weight
                 (filter (position_is "bow") members)
                 (filter (position_is "stroke") members)
                 (filter no_preference members))).
  rewrite Hd. auto.
Qed.

Lemma assign_members_perm (members : list Paddler) :
  Permutation
    (bow_members (assign_seating members)
     ++ stroke_members (assign_seating members))
    members.
Proof.
  destruct (assign_members members) as (xs & ys & -> & -> & Hp).
  eapply perm_trans; [|apply partition_perm].
  rewrite <- app_assoc. apply Permutation_app_head.
  eapply perm_trans; [apply Permutation_app_swap_app|].
  now apply Permutation_app_head.
Qed.

Lemma filter_all {A : Type} (f : A -> bool) (l : list A) :
  Forall (fun x => f x = true) l -> filter f l = l.
Proof.
  induction 1 as [|x l Hx _ IH]; simpl; [reflexivity|].
  now rewrite Hx, IH.
Qed.

Lemma filter_none {A : Type} (f : A -> bool) (l : list A) :
  Forall (fun x => f x = false) l -> filter f l = [].
Proof.
  induction 1 as [|x l Hx _ IH]; simpl; [reflexivity|].
  now rewrite Hx.
Qed.

(** A roster of Bow-preferring paddlers goes to the Bow side whole. *)
Lemma assign_all_bow (roster : list Paddler) :
  Forall (fun m => position_is "bow" m = true) roster ->
  bow_members (assign_seating roster) = roster /\
  stroke_members (assign_seating roster) = [].
Proof.
  intros Hb.
  change (bow_members (assign_seating roster))
    with (fst (distribute_others_by_weight
                 (filter (position_is "bow") roster)
                 (filter (position_is "stroke") roster)
                 (filter no_preference roster))).
  change (stroke_members (assign_seating roster))
    with (snd (distribute_others_by_weight
                 (filter (position_is "bow") roster)
                 (filter (position_is "stroke") roster)
                 (filter no_preference roster))).
  rewrite (filter_all _ _ Hb).
  rewrite (filter_none (position_is "stroke") roster),
    (filter_none no_preference roster).
  - split; reflexivity.
  - eapply Forall_impl; [|exact Hb]. intros m Hm. simpl in Hm.
    unfold no_preference. now rewrite Hm.
  - eapply Forall_impl; [|exact Hb]. intros m Hm.
    now apply not_bow_and_stroke.
Qed.

(* ================================================================== *)
(** ** The claims on the partitioner and the seat packer *)

(** C1.  For every roster, a paddler whose position preference is Bow is
    not seated on the Stroke side and a paddler whose preference is Stroke
    is not seated on the Bow side; the distribution step leaves the two
    preference lists as the partition built them and only appends the
    no-preference paddlers to them. *)
Theorem preference_side_kept (roster : list Paddler) :
  let a := assign_seating roster in
  (forall m, position_is "bow" m = true -> ~ In m (stroke a)) /\
  (forall m, position_is "stroke" m = true -> ~ In m (bow a)) /\
  (exists xs ys,
      bow_members a = filter (position_is "bow") roster ++ xs /\
      stroke_members a = filter (position_is "stroke") roster ++ ys /\
      Permutation (xs ++ ys) (filter no_preference roster)).
Proof.
  cbv zeta.
  destruct (assign_members roster) as (xs & ys & Hb & Hs & Hp).
  assert (Hno : forall m, In m (xs ++ ys) -> no_preference m = true).
  { intros m Hin. eapply Permutation_in in Hin; [|exact Hp].
    now apply filter_In in Hin. }
  split; [|split].
  - intros m Hm Hin.
    rewrite assign_stroke in Hin. apply build_side_In in Hin.
    rewrite Hs in Hin. apply in_app_or in Hin as [Hin|Hin].
    + apply filter_In in Hin as [_ Hin].
      rewrite (not_stroke_and_bow m Hin) in Hm. discriminate.
    + assert (H := Hno m (in_or_app _ _ _ (or_intror Hin))).
      unfold no_preference in H. rewrite Hm in H. discriminate.
  - intros m Hm Hin.
    rewrite assign_bow in Hin. apply build_side_In in Hin.
    rewrite Hb in Hin. apply in_app_or in Hin as [Hin|Hin].
    + apply filter_In in Hin as [_ Hin].
      rewrite (not_bow_and_stroke m Hin) in Hm. discriminate.
    + assert (H := Hno m (in_or_app _ _ _ (or_introl Hin))).
      unfold no_preference in H. rewrite Hm, orb_true_r in H. discriminate.
  - exists xs, ys. auto.
Qed.

(** C2.  For every list of one side's paddlers, the three role buckets
    the code builds are the members counted as Pacer, as Engine (the
    default role) and as Rocket, each sorted descending by weight with
    ties in their original order, and the output of
    [build_side_with_roles] is the one the specification describes: ten
    slots, slots 1 and 2 pull the heaviest remaining paddler from
    Pacers, else Engines, else Rockets; slots 10 then 9 from Rockets,
    else Engines, else Pacers; slots 3 to 8 from Engines, else Pacers,
    else Rockets; unfilled slots are omitted and slot order is kept. *)
Theorem build_side_with_roles_spec (members : list Paddler) :
  stable_descending_sort weight
    (of_role Pacer members) (pacers (role_buckets members)) /\
  stable_descending_sort weight
    (of_role Engine members) (engines (role_buckets members)) /\
  stable_descending_sort weight
    (of_role Rocket members) (rockets (role_buckets members)) /\
  build_side_with_roles members = seat_packer_spec members.
Proof.
  pose proof (role_buckets_hold members) as H.
  pose proof (H Pacers) as Hp. pose proof (H Engines) as He.
  pose proof (H Rockets) as Hr.
  cbn [group_of role_of_group] in Hp, He, Hr. unfold pool_of in Hp, He, Hr.
  rewrite Hp, He, Hr.
  split; [apply (sorted_reverse_stable weight_of)|].
  split; [apply (sorted_reverse_stable weight_of)|].
  split; [apply (sorted_reverse_stable weight_of)|].
  apply build_side_follows_spec.
Qed.


(** C4.  For every input the seat packer returns at most 10 paddlers,
    exactly [min 10 (len members)] of them, each taken once from the input
    (the input is the output together with the unseated paddlers); and the
    handler shows the overflow report exactly when a side received more
    than 10 paddlers, which is exactly when some paddler of the roster is
    left unseated.  With 11 Bow-preferring paddlers, 10 are seated, 1 is
    not, and the report is shown. *)
Theorem seats_capped_and_reported (members roster : list Paddler) :
  let a := assign_seating roster in
  (List.length (build_side_with_roles members) <= 10)%nat /\
  List.length (build_side_with_roles members)
  = Nat.min 10 (List.length members) /\
  (exists unseated,
      Permutation members (build_side_with_roles members ++ unseated)) /\
  (info a = Some overflow_text <->
   (10 < List.length (bow_members a))%nat \/
   (10 < List.length (stroke_members a))%nat) /\
  (info a = Some overflow_text <->
   (List.length (bow a) + List.length (stroke a) < List.length roster)%nat) /\
  (info a = None <->
   (List.length (bow a) + List.length (stroke a) = List.length roster)%nat) /\
  (List.length roster = 11%nat ->
   Forall (fun m => position_is "bow" m = true) roster ->
   List.length (bow a) = 10%nat /\ stroke a = [] /\
   info a = Some overflow_text /\
   (List.length roster - (List.length (bow a) + List.length (stroke a))
    = 1)%nat).
Proof.
  cbv zeta.
  pose proof (build_side_length members) as Hlen.
  pose proof (build_side_length (bow_members (assign_seating roster))) as Hb.
  pose proof (build_side_length (stroke_members (assign_seating roster))) as Hs.
  pose proof (Permutation_length (assign_members_perm roster)) as Hr.
  rewrite length_app in Hr.
  rewrite <- assign_bow in Hb. rewrite <- assign_stroke in Hs.
  assert (Hinfo :
    info (assign_seating roster) = Some overflow_text <->
    (10 < List.length (bow_members (assign_seating roster)))%nat \/
    (10 < List.length (stroke_members (assign_seating roster)))%nat).
  { rewrite assign_info.
    destruct (Nat.ltb_spec 10 (List.length (bow_members (assign_seating roster))))
      as [E1|E1];
      destruct (Nat.ltb_spec 10 (List.length (stroke_members (assign_seating roster))))
        as [E2|E2];
      cbn [orb];
      split; intros H; try discriminate; try reflexivity;
      try (left; lia); try (right; lia); try (exfalso; lia). }
  assert (Hnone :
    info (assign_seating roster) = None <->
    ~ info (assign_seating roster) = Some overflow_text).
  { rewrite assign_info.
    destruct (_ || _); split; intros H; try discriminate; try reflexivity.
    exfalso. now apply H. }
  split; [lia|]. split; [exact Hlen|].
  split.
  { eexists. apply Permutation_sym, build_side_perm. }
  split; [exact Hinfo|].
  split; [rewrite Hinfo; lia|].
  split; [rewrite Hnone, Hinfo; lia|].
  intros H11 Hall.
  destruct (assign_all_bow roster Hall) as [Ebm Esm].
  rewrite Ebm in Hb. rewrite Esm in Hs, Hinfo.
  rewrite Ebm in Hinfo.
  assert (Hstroke : stroke (assign_seating roster) = []).
  { apply length_zero_iff_nil. rewrite Hs. reflexivity. }
  rewrite Hstroke. cbn [List.length].
  split; [lia|]. split; [reflexivity|].
  split; [apply Hinfo; lia | lia].
Qed.


Lemma placements_placed (os : list Paddler) :
  forall st, map placed (placements st os) = os.
Proof.
  induction os as [|o os IH]; intros st; simpl; [reflexivity|].
  now rewrite IH.
Qed.



(** Totals that are equal as decimals need not be equal as the code
    computes them: 77.0 + 71.4 + 66.5 and 59.3 + 69.9 + 85.7 are both
    214.9, the float sums are 214.9 and 214.89999999999998. *)
Example close_totals_are_no_tie :
  77 + (714 # 10) + (665 # 10) == (593 # 10) + (699 # 10) + (857 # 10) /\
  summed_weight bow_close = float_literal (2149 # 10) /\
  summed_weight stroke_close
  = float_literal (21489999999999998 # 100000000000000) /\
  summed_weight stroke_close < summed_weight bow_close.
Proof. repeat split. Qed.




(** What a placement adds is the placed weight up to the rounding of one
    addition, and the bound cannot name the placed weight itself: from
    empty sides, 99.6, 99.6 and 88.2 kg end 88.20000000000002 kg apart. *)
Example gap_exceeds_placed_by_rounding :
  exists p,
    nth_error (distribute_trace [] [] roster_rounding) 2 = Some p /\
    side_gap (before p) == 0 /\
    weight (placed p) < side_gap (after p) /\
    side_gap (after p) == added_by p.
Proof.
  eexists. split; [vm_compute; reflexivity|].
  repeat split; vm_compute; reflexivity.
Qed.

(* ================================================================== *)
(** ** Balance analyser *)








(** The sums and differences are floats.  With 104.5 kg on Bow and
    40.1 kg on Stroke, diff_lr plus twice right is 144.60000000000002
    and left plus right is 144.6, so an identity of exact arithmetic
    need not hold of them.  With 77.0, 71.4, 66.5 on Bow and 59.3, 69.9,
    85.7 on Stroke, left is 214.9, right is 214.89999999999998 and
    diff_lr is positive. *)
Example metrics_are_floats :
  (exists m,
      compute_balance_metrics
        (build_assign_rows
           [paddler "A" (float_literal (1045 # 10)) "Bow" "Pacer"]
           [paddler "B" (float_literal (401 # 10)) "Stroke" "Engine"])
      = Some m /\
      total m = float_literal (1446 # 10) /\
      total m < fadd (diff_lr m) (fadd (right m) (right m))) /\
  (exists m,
      compute_balance_metrics (build_assign_rows bow_close stroke_close)
      = Some m /\
      left m = float_literal (2149 # 10) /\
      right m = float_literal (21489999999999998 # 100000000000000) /\
      0 < diff_lr m).
Proof.
  split; eexists; (split; [vm_compute; reflexivity|]);
    repeat split; vm_compute; reflexivity.
Qed.

(** The scenario of the specification: A at Bow seat 1, B at Stroke seat
    1, and a left-right difference of 10. *)
Example scenario_AB :
  map (fun r => (Seat r, Side r, Name r)) (assign_rows (assign_seating roster_AB))
  = [(1%Z, "Bow", "A"); (1%Z, "Stroke", "B")] /\
  option_map diff_lr (metrics (assign_seating roster_AB)) = Some 10.
Proof. split; vm_compute; reflexivity. Qed.

(** The handler's rows form a completed assignment. *)
Lemma rows_at_seats (bow_side stroke_side : list Paddler) (row : nat) :
  Forall (fun r => Seat r = (Z.of_nat row + 1)%Z /\
                   (Side r = "Bow" \/ Side r = "Stroke"))
    (rows_at bow_side stroke_side row).
Proof.
  unfold rows_at. apply Forall_app. split.
  - destruct (nth_error bow_side row); constructor;
      [split; [reflexivity | left; reflexivity] | constructor].
  - destruct (nth_error stroke_side row); constructor;
      [split; [reflexivity | right; reflexivity] | constructor].
Qed.

Lemma build_assign_rows_completed (bow_side stroke_side : list Paddler) :
  bow_side <> [] \/ stroke_side <> [] ->
  completed_assignment (build_assign_rows bow_side stroke_side).
Proof.
  intros Hne. unfold completed_assignment, build_assign_rows. split.
  - assert (Hpos : exists n,
               Nat.min 10 (Nat.max (List.length bow_side)
                             (List.length stroke_side)) = S n).
    { destruct bow_side, stroke_side; simpl;
        try (eexists; reflexivity).
      destruct Hne as [H|H]; now contradiction H. }
    destruct Hpos as [n ->]. simpl. unfold rows_at at 1.
    destruct bow_side as [|b bs]; simpl; [|discriminate].
    destruct stroke_side as [|s ss]; simpl; [|discriminate].
    destruct Hne as [H|H]; now contradiction H.
  - apply Forall_flat_map. rewrite Forall_forall. intros row Hrow.
    apply in_seq in Hrow.
    eapply Forall_impl; [|apply rows_at_seats].
    intros r [Hseat Hside]. split; [lia | exact Hside].
Qed.

Lemma assign_rows_completed (roster : list Paddler) :
  roster <> [] ->
  completed_assignment (assign_rows (assign_seating roster)).
Proof.
  intros Hne. rewrite assign_rows_built.
  apply build_assign_rows_completed.
  pose proof (build_side_length (bow_members (assign_seating roster))) as Hb.
  pose proof (build_side_length (stroke_members (assign_seating roster))) as Hs.
  rewrite <- assign_bow in Hb. rewrite <- assign_stroke in Hs.
  pose proof (Permutation_length (assign_members_perm roster)) as Hr.
  rewrite length_app in Hr.
  assert (Hpos : (0 < List.length roster)%nat).
  { destruct roster; [contradiction | simpl; lia]. }
  destruct (bow (assign_seating roster)) as [|b bs] eqn:Eb;
    [|left; discriminate].
  destruct (stroke (assign_seating roster)) as [|s ss] eqn:Es;
    [|right; discriminate].
  cbn [List.length] in Hb, Hs. lia.
Qed.

Lemma compute_balance_metrics_some (rows : list AssignRow) :
  rows <> [] -> exists m, compute_balance_metrics rows = Some m.
Proof.
  destruct rows as [|r rows]; [contradiction|].
  intros _. eexists. reflexivity.
Qed.

(** ** Suggestions *)

Lemma Qgt_bool_true (x y : Q) : Qgt_bool x y = true <-> y < x.
Proof.
  unfold Qgt_bool. rewrite negb_true_iff. split; intros H.
  - apply Qnot_le_lt. intros Hle. apply Qle_bool_iff in Hle. congruence.
  - destruct (Qle_bool x y) eqn:E; [|reflexivity].
    apply Qle_bool_iff in E. exfalso. apply (Qlt_not_le _ _ H E).
Qed.

Lemma Qgt_bool_false (x y : Q) : Qgt_bool x y = false <-> x <= y.
Proof.
  unfold Qgt_bool. rewrite negb_false_iff. apply Qle_bool_iff.
Qed.

Section Extremes.
Context {A : Type}.
Variable key : A -> Q.

Lemma max_from_spec (l : list A) :
  forall best,
    In (max_from key best l) (best :: l) /\
    forall x, In x (best :: l) -> key x <= key (max_from key best l).
Proof.
  induction l as [|y l IH]; intros best; simpl.
  - split; [now left|]. intros x [<-|[]]. apply Qle_refl.
  - destruct (Qle_bool (key y) (key best)) eqn:E.
    + apply Qle_bool_iff in E.
      destruct (IH best) as [Hin Hmax]. split.
      * destruct Hin as [Hin|Hin]; [now left | now right; right].
      * intros x [<-|[<-|Hx]].
        -- apply Hmax. now left.
        -- eapply Qle_trans; [exact E|]. apply Hmax. now left.
        -- apply Hmax. now right.
    + assert (Hlt : key best <= key y).
      { apply Qlt_le_weak, Qnot_le_lt. intros Hle.
        apply Qle_bool_iff in Hle. congruence. }
      destruct (IH y) as [Hin Hmax]. split.
      * right. exact Hin.
      * intros x [<-|[<-|Hx]].
        -- eapply Qle_trans; [exact Hlt|]. apply Hmax. now left.
        -- apply Hmax. now left.
        -- apply Hmax. now right.
Qed.

Lemma min_from_spec (l : list A) :
  forall best,
    In (min_from key best l) (best :: l) /\
    forall x, In x (best :: l) -> key (min_from key best l) <= key x.
Proof.
  induction l as [|y l IH]; intros best; simpl.
  - split; [now left|]. intros x [<-|[]]. apply Qle_refl.
  - destruct (Qle_bool (key best) (key y)) eqn:E.
    + apply Qle_bool_iff in E.
      destruct (IH best) as [Hin Hmin]. split.
      * destruct Hin as [Hin|Hin]; [now left | now right; right].
      * intros x [<-|[<-|Hx]].
        -- apply Hmin. now left.
        -- eapply Qle_trans; [|exact E]. apply Hmin. now left.
        -- apply Hmin. now right.
    + assert (Hlt : key y <= key best).
      { apply Qlt_le_weak, Qnot_le_lt. intros Hle.
        apply Qle_bool_iff in Hle. congruence. }
      destruct (IH y) as [Hin Hmin]. split.
      * right. exact Hin.
      * intros x [<-|[<-|Hx]].
        -- eapply Qle_trans; [|exact Hlt]. apply Hmin. now left.
        -- apply Hmin. now left.
        -- apply Hmin. now right.
Qed.
End Extremes.

Lemma swap_suggestion_fires (rows : list AssignRow) (d : Q) :
  5 < Qabs d -> both_sides_seated rows ->
  exists s, swap_suggestion rows d = [s] /\ names_the_swap rows d s.
Proof.
  intros Hd [Hb Hs]. unfold swap_suggestion, names_the_swap.
  apply Qgt_bool_true in Hd. rewrite Hd.
  destruct (filter (side_is "bow") rows) as [|b0 bs]; [contradiction|].
  destruct (filter (side_is "stroke") rows) as [|s0 ss]; [contradiction|].
  destruct (max_from_spec row_weight bs b0) as [Hbmax1 Hbmax2].
  destruct (min_from_spec row_weight bs b0) as [Hbmin1 Hbmin2].
  destruct (max_from_spec row_weight ss s0) as [Hsmax1 Hsmax2].
  destruct (min_from_spec row_weight ss s0) as [Hsmin1 Hsmin2].
  destruct (Qgt_bool d 0) eqn:E; eexists; (split; [reflexivity|]).
  - apply Qgt_bool_true in E. split.
    + intros _. unfold heaviest_of, lightest_of. auto.
    + intros Hle. exfalso. apply (Qlt_not_le _ _ E Hle).
  - apply Qgt_bool_false in E. split.
    + intros Hlt. exfalso. apply (Qlt_not_le _ _ Hlt E).
    + intros _. unfold heaviest_of, lightest_of. auto.
Qed.

Lemma swap_suggestion_silent (rows : list AssignRow) (d : Q) :
  ~ (5 < Qabs d /\ both_sides_seated rows) -> swap_suggestion rows d = [].
Proof.
  intros Hn. unfold swap_suggestion.
  destruct (Qgt_bool (Qabs d) 5) eqn:E; [|reflexivity].
  apply Qgt_bool_true in E.
  destruct (filter (side_is "bow") rows) as [|b0 bs] eqn:Eb; [reflexivity|].
  destruct (filter (side_is "stroke") rows) as [|s0 ss] eqn:Es; [reflexivity|].
  exfalso. apply Hn. split; [exact E|].
  unfold both_sides_seated. rewrite Eb, Es. split; discriminate.
Qed.

Lemma move_suggestion_fires (d : Q) :
  5 < Qabs d ->
  exists s, move_suggestion d = [s] /\ names_the_move d s /\
            s <> Note balanced_text.
Proof.
  intros Hd. unfold move_suggestion, names_the_move.
  apply Qgt_bool_true in Hd. rewrite Hd.
  destruct (Qgt_bool d 0) eqn:E; eexists; (split; [reflexivity|]).
  - apply Qgt_bool_true in E. split; [split|discriminate].
    + reflexivity.
    + intros Hle. exfalso. apply (Qlt_not_le _ _ E Hle).
  - apply Qgt_bool_false in E. split; [split|discriminate].
    + intros Hlt. exfalso. apply (Qlt_not_le _ _ Hlt E).
    + reflexivity.
Qed.

Lemma move_suggestion_silent (d : Q) :
  ~ 5 < Qabs d -> move_suggestion d = [].
Proof.
  intros Hn. unfold move_suggestion.
  destruct (Qgt_bool (Qabs d) 5) eqn:E; [|reflexivity].
  apply Qgt_bool_true in E. contradiction.
Qed.

Lemma Qlt_dec_prop (x y : Q) : x < y \/ ~ x < y.
Proof.
  destruct (Qlt_le_dec x y) as [H|H]; [now left|].
  right. intros H'. apply (Qlt_not_le _ _ H' H).
Qed.

Lemma both_sides_seated_dec (rows : list AssignRow) :
  both_sides_seated rows \/ ~ both_sides_seated rows.
Proof.
  unfold both_sides_seated.
  destruct (filter (side_is "bow") rows);
    [right; intros [H _]; now apply H|].
  destruct (filter (side_is "stroke") rows);
    [right; intros [_ H]; now apply H|].
  left. split; discriminate.
Qed.

(** The suggestions block applies the rules as built. *)
Lemma balance_suggestions_built (rows : list AssignRow) (m : BalanceMetrics) :
  suggestions_as_built rows m (balance_suggestions rows m).
Proof.
  unfold suggestions_as_built, balance_suggestions.
  destruct (Qlt_dec_prop 5 (Qabs (diff_lr m))) as [Hlr|Hlr];
    [destruct (both_sides_seated_dec rows) as [Hboth|Hboth]|].
  - (* the swap rule fires *)
    destruct (swap_suggestion_fires rows _ Hlr Hboth) as (s & -> & Hs).
    cbn [app].
    split; [intros _; exists s; split; [now left | exact Hs]|].
    split.
    + intros Hfb.
      destruct (move_suggestion_fires _ Hfb) as (s' & -> & Hs' & _).
      exists s'. split; [right; now left | exact Hs'].
    + split.
      * intros [= -> _]. destruct Hs.
      * intros [Hn _]. exfalso. apply Hn. now split.
  - rewrite (swap_suggestion_silent rows (diff_lr m)) by tauto.
    cbn [app]. split; [tauto|].
    destruct (Qlt_dec_prop 5 (Qabs (diff_fb m))) as [Hfb|Hfb].
    + destruct (move_suggestion_fires _ Hfb) as (s' & -> & Hs' & Hne).
      split; [intros _; exists s'; split; [now left | exact Hs']|].
      split; [intros [= ->]; now contradiction Hne | tauto].
    + rewrite (move_suggestion_silent _ Hfb).
      split; [tauto|]. split; [tauto|]. intros _. reflexivity.
  - rewrite (swap_suggestion_silent rows (diff_lr m)) by tauto.
    cbn [app]. split; [tauto|].
    destruct (Qlt_dec_prop 5 (Qabs (diff_fb m))) as [Hfb|Hfb].
    + destruct (move_suggestion_fires _ Hfb) as (s' & -> & Hs' & Hne).
      split; [intros _; exists s'; split; [now left | exact Hs']|].
      split; [intros [= ->]; now contradiction Hne | tauto].
    + rewrite (move_suggestion_silent _ Hfb).
      split; [tauto|]. split; [tauto|]. intros _. reflexivity.
Qed.

(** C7, as the specification states it, fails: ten 10 kg paddlers who all
    prefer Bow give a left-right difference of 100 kg, yet no swap is
    suggested and the only line shown is the "already balanced" one. *)
Lemma balanced_shown_despite_lr_gap :
  exists m,
    metrics (assign_seating roster_ten_bow) = Some m /\
    5 < Qabs (diff_lr m) /\
    suggestions (assign_seating roster_ten_bow) = Some [Note balanced_text] /\
    ~ suggestions_as_stated (assign_rows (assign_seating roster_ten_bow)) m
        [Note balanced_text].
Proof.
  eexists. split; [vm_compute; reflexivity|].
  split; [vm_compute; reflexivity|].
  split; [vm_compute; reflexivity|].
  intros (_ & _ & Hbal).
  destruct (proj1 Hbal eq_refl) as [Hlr _].
  apply Hlr. vm_compute. reflexivity.
Qed.

(** C7, amended.  For every assignment the handler builds from a
    non-empty roster: if |diff_lr| > 5 and each side has a seated paddler,
    a swap suggestion names the heaviest paddler of the heavier side and
    the lightest paddler of the lighter side; if |diff_fb| > 5, a
    suggestion to move a paddler toward the lighter zone is shown, a fixed
    text that names no paddler; and the single "already balanced" line is
    shown exactly when neither of these two rules fired. *)
Theorem suggestions_rules (roster : list Paddler) (a : Assignment) :
  assign_seating_handler roster = Some a ->
  exists m out,
    metrics a = Some m /\
    suggestions a = Some out /\
    suggestions_as_built (assign_rows a) m out.
Proof.
  intros Ha.
  assert (Hne : roster <> []).
  { intros ->. discriminate Ha. }
  assert (Hrun : a = assign_seating roster).
  { destruct roster; [discriminate Ha|]. now injection Ha. }
  subst a.
  destruct (compute_balance_metrics_some _
              (proj1 (assign_rows_completed roster Hne))) as (m & Hm).
  exists m, (balance_suggestions (assign_rows (assign_seating roster)) m).
  rewrite assign_suggestions, assign_metrics, Hm.
  split; [reflexivity|]. split; [reflexivity|].
  apply balance_suggestions_built.
Qed.

Lemma suggestions_rules_witness :
  exists m out,
    metrics (assign_seating roster_AB) = Some m /\
    suggestions (assign_seating roster_AB) = Some out /\
    suggestions_as_built (assign_rows (assign_seating roster_AB)) m out.
Proof.
  apply (suggestions_rules roster_AB). reflexivity.
Defined.

(* ================================================================== *)
(** ** Roster CSV *)

Section CsvFacts.
Context {pd : Pandas} {py : PyFloat}.

Lemma import_empty : import_roster_from_csv_bytes "" = [].
Proof. reflexivity. Qed.

Lemma import_unreadable (csv_bytes : string) :
  read_csv csv_bytes = None ->
  read_csv_text csv_bytes = None ->
  import_roster_from_csv_bytes csv_bytes = [].
Proof.
  intros H1 H2. unfold import_roster_from_csv_bytes.
  destruct csv_bytes; [reflexivity|]. now rewrite H1, H2.
Qed.

Lemma mapped_column_none (cols : list string) (key : string) :
  Forall (fun c => lower c <> key) cols -> mapped_column cols key = "".
Proof.
  unfold mapped_column. generalize "".
  induction cols as [|c cols IH]; intros d H; simpl; [reflexivity|].
  inversion H as [|? ? Hc Hrest]; subst.
  destruct (String.eqb_spec (lower c) key) as [E|E]; [contradiction|].
  now apply IH.
Qed.

Lemma row_get_absent (cols : list string) (label : string) (default : Cell) :
  Forall (fun c => c <> label) cols ->
  forall r, row_get cols r label default = default.
Proof.
  induction 1 as [|c cols Hc _ IH]; intros r; simpl; [reflexivity|].
  destruct r as [|v vs]; [reflexivity|].
  destruct (String.eqb_spec c label) as [E|E]; [contradiction|]. apply IH.
Qed.

Lemma weight_of_unusable (w : Cell) :
  unusable_weight w -> weight_of_cell w = 0.
Proof.
  intros [-> | [-> | (s & -> & Hs)]]; try reflexivity.
  unfold weight_of_cell. destruct s; [reflexivity|]. now rewrite Hs.
Qed.

Lemma entry_weight (cols : list string) (r : list Cell) :
  weight (entry_of_row cols r)
  = weight_of_cell (row_get cols r (mapped_column cols "weight") (CStr "")).
Proof. reflexivity. Qed.

Lemma entry_name (cols : list string) (r : list Cell) :
  name (entry_of_row cols r)
  = strip (str (row_get cols r (mapped_column cols "name") (CStr ""))).
Proof. reflexivity. Qed.

Lemma nonempty_false (s : string) : nonempty s = false <-> s = "".
Proof. destruct s; simpl; split; intros H; congruence. Qed.

(** The frame built from the roster's dicts and cut to the field names. *)
Lemma add_keys_roster (m : Paddler) :
  add_keys [] (dict_of_paddler m) = roster_fieldnames /\
  add_keys roster_fieldnames (dict_of_paddler m) = roster_fieldnames.
Proof. split; reflexivity. Qed.

Lemma columns_of_roster (roster : list Paddler) (m : Paddler) :
  fold_left add_keys (map dict_of_paddler (m :: roster)) []
  = roster_fieldnames.
Proof.
  cbn [map fold_left]. rewrite (proj1 (add_keys_roster m)).
  induction roster as [|m' roster IH]; cbn [map fold_left]; [reflexivity|].
  rewrite (proj2 (add_keys_roster m')). exact IH.
Qed.

Lemma export_roster (roster : list Paddler) :
  roster <> [] ->
  dicts_to_csv_bytes (map dict_of_paddler roster) roster_fieldnames
  = to_csv (roster_frame roster).
Proof.
  destruct roster as [|m roster]; [contradiction|]. intros _.
  unfold dicts_to_csv_bytes.
  change (match map dict_of_paddler (m :: roster) with
          | [] => ""
          | _ :: _ => ?x
          end) with x.
  unfold DataFrame_of_dicts. rewrite columns_of_roster.
  cbn [columns records].
  change (filter (fun c => mem_string c roster_fieldnames) roster_fieldnames)
    with roster_fieldnames.
  cbn [roster_fieldnames].
  f_equal. unfold select_columns, roster_frame. cbn [columns records].
  f_equal. rewrite !map_map. apply map_ext. intros p. reflexivity.
Qed.

End CsvFacts.

(** C9.  The import does not drop every row whose name is empty in the
    file.  For the file with the header [name,weight] and the one row
    [,70], [read_csv] returns a missing value (NaN) in the name cell;
    [str] turns it into the text "nan", which is not empty, and the row
    is kept under the name "nan".  The weight cell is guarded by
    [pd.isna]; the name cell is not. *)
Theorem empty_name_cell_kept (py : PyFloat) :
  @import_roster_from_csv_bytes (single_file_pandas frame_without_name) py
    "table"
  = [ {| name := "nan"; weight := 70; level := ""; position := "";
         classification := ""; role := "" |} ].
Proof. reflexivity. Qed.

(** X19.  A weight that is missing (no weight column, or an empty or
    NaN cell) or that [float] rejects becomes 0.0; empty bytes give the
    empty list; and when neither attempt to read the bytes as CSV
    succeeds the result is the empty list, not an exception. *)
Theorem import_weight_defaults {pd : Pandas} {py : PyFloat}
  (csv_bytes : string) (cols : list string) (r : list Cell) :
  (no_weight_column cols -> weight (entry_of_row cols r) = 0) /\
  (unusable_weight (row_get cols r (mapped_column cols "weight") (CStr "")) ->
   weight (entry_of_row cols r) = 0) /\
  import_roster_from_csv_bytes "" = [] /\
  (read_csv csv_bytes = None -> read_csv_text csv_bytes = None ->
   import_roster_from_csv_bytes csv_bytes = []).
Proof.
  split; [|split; [|split]].
  - intros Hno. rewrite entry_weight.
    rewrite mapped_column_none.
    + rewrite row_get_absent; [reflexivity|].
      eapply Forall_impl; [|exact Hno]. intros c [_ Hc]. exact Hc.
    + eapply Forall_impl; [|exact Hno]. intros c [Hc _]. exact Hc.
  - intros Hw. rewrite entry_weight. now apply weight_of_unusable.
  - reflexivity.
  - apply import_unreadable.
Qed.

(** The sample file: the spaced name is stripped, the weight that is no
    number and the missing weight become 0, the row with a blank name is
    dropped, and a file that cannot be read gives the empty list. *)
Example import_sample :
  @import_roster_from_csv_bytes (single_file_pandas sample_frame) no_float
    "table"
  = [ {| name := "Al"; weight := 0; level := ""; position := "";
         classification := ""; role := "Pacer" |};
      {| name := "Bo"; weight := 0; level := ""; position := "";
         classification := ""; role := "Rocket" |} ] /\
  @import_roster_from_csv_bytes (single_file_pandas sample_frame) no_float
    "junk" = [].
Proof. split; reflexivity. Qed.

Lemma import_weight_defaults_witness :
  weight (@entry_of_row no_float ["Name"; "Role"] [CStr "Al"; CStr "Pacer"])
  = 0 /\
  weight (@entry_of_row no_float ["Name"; "Weight"] [CStr "Al"; CStr "abc"])
  = 0 /\
  @import_roster_from_csv_bytes (single_file_pandas sample_frame) no_float
    "junk" = [].
Proof.
  pose proof (@import_weight_defaults (single_file_pandas sample_frame)
                no_float "junk" ["Name"; "Role"] [CStr "Al"; CStr "Pacer"])
    as (H1 & _ & _ & H4).
  pose proof (@import_weight_defaults (single_file_pandas sample_frame)
                no_float "junk" ["Name"; "Weight"] [CStr "Al"; CStr "abc"])
    as (_ & H2 & _ & _).
  split; [|split].
  - apply H1. repeat constructor; discriminate.
  - apply H2. right. right. exists "abc". split; reflexivity.
  - apply H4; reflexivity.
Defined.

(* ================================================================== *)
(** ** Roster display order *)

Section SortedByFacts.
Context {A K : Type}.
Variable leb : K -> K -> bool.
Variable key : A -> K.
Hypothesis leb_total : forall a b, leb a b = true \/ leb b a = true.
Hypothesis leb_trans :
  forall a b c, leb a b = true -> leb b c = true -> leb a c = true.

Lemma insert_by_perm (reverse : bool) (x : A) (l : list A) :
  Permutation (x :: l) (insert_by leb key reverse x l).
Proof.
  induction l as [|y ys IH]; simpl.
  - apply Permutation_refl.
  - destruct (goes_before leb key reverse x y).
    + apply Permutation_refl.
    + eapply perm_trans; [apply perm_swap|]. apply perm_skip, IH.
Qed.

Lemma sorted_by_perm (reverse : bool) (l : list A) :
  Permutation l (sorted_by leb key reverse l).
Proof.
  induction l as [|x l IH]; simpl.
  - constructor.
  - eapply perm_trans; [apply perm_skip, IH|]. apply insert_by_perm.
Qed.







End SortedByFacts.








(** Sorting by weight with [reverse=True] is the sort the distribution
    and the seat packer use. *)
Lemma sorted_by_weight_reverse (l : list Paddler) :
  sorted_by Qle_bool weight_of true l = sorted_reverse weight_of l.
Proof.
  induction l as [|x l IH]; [reflexivity|].
  simpl. rewrite IH. generalize (sorted_reverse weight_of l).
  intros s. induction s as [|y ys IHs]; [reflexivity|].
  simpl. unfold goes_before. now rewrite IHs.
Qed.

Lemma sort_roster_empty (method : string) : sort_roster [] method = [].
Proof. reflexivity. Qed.

Ltac split_method_tests :=
  repeat match goal with
         | |- context [if String.eqb ?a ?b then _ else _] =>
             destruct (String.eqb_spec a b)
         end.

Lemma sort_roster_length (rows : list Paddler) (method : string) :
  List.length (sort_roster rows method) = List.length rows.
Proof.
  destruct rows as [|p rows]; [reflexivity|].
  unfold sort_roster.
  split_method_tests; try reflexivity;
    symmetry; apply Permutation_length, sorted_by_perm.
Qed.

(** X1.  Whatever the method string, [sort_roster] returns the rows it
    was given, each exactly once: sorting the roster view never loses or
    repeats a paddler. *)
Theorem sort_roster_perm (rows : list Paddler) (method : string) :
  Permutation rows (sort_roster rows method).
Proof.
  destruct rows as [|p rows]; [constructor|].
  unfold sort_roster.
  split_method_tests;
    first [apply Permutation_refl | apply sorted_by_perm].
Qed.


(** X3.  The roster's "Weight (Heavy to Light)" order is the order in
    which [distribute_others_by_weight] places the no-preference
    paddlers: sorting them for display with that method lists them as
    they are placed, one after the other. *)
Theorem heavy_first_is_placement_order
  (bow_list stroke_list others : list Paddler) :
  sort_roster others "Weight (Heavy→Light)" = sorted_reverse weight_of others /\
  distribute_others_by_weight bow_list stroke_list others
  = fold_left place (sort_roster others "Weight (Heavy→Light)")
      (bow_list, stroke_list) /\
  map placed (distribute_trace bow_list stroke_list others)
  = sort_roster others "Weight (Heavy→Light)".
Proof.
  assert (H : sort_roster others "Weight (Heavy→Light)"
              = sorted_reverse weight_of others).
  { destruct others as [|o others]; [reflexivity|].
    apply sorted_by_weight_reverse. }
  rewrite H. split; [reflexivity|]. split; [reflexivity|].
  apply placements_placed.
Qed.

(** The sample roster under three of the orders. *)
Example sort_roster_mixed :
  map name (sort_roster roster_mixed "Name (A→Z)") = ["Al"; "Bo"; "cy"] /\
  map name (sort_roster roster_mixed "Level (A→D)") = ["Bo"; "cy"; "Al"] /\
  map name (sort_roster roster_mixed "Alpha/Bravo (Alpha first)")
  = ["Bo"; "cy"; "Al"] /\
  map name (sort_roster roster_mixed "Weight (Light→Heavy)")
  = ["cy"; "Bo"; "Al"] /\
  map name (sort_roster roster_mixed "by age") = ["cy"; "Al"; "Bo"].
Proof. repeat split; reflexivity. Qed.

(* ================================================================== *)
(** ** Dashboard and overflow *)

Lemma count_if_length {A : Type} (p : A -> bool) (l : list A) :
  count_if p l = List.length (filter p l).
Proof.
  unfold count_if. generalize (filter p l). intros f.
  assert (H : forall a, fold_left (fun acc (_ : A) => (acc + 1)%nat) f a
                        = (a + List.length f)%nat).
  { induction f as [|x f IH]; intros a; simpl; [lia|]. rewrite IH. lia. }
  apply H.
Qed.

Lemma assign_info_shown (roster : list Paddler) :
  info (assign_seating roster) = Some overflow_text <->
  (10 < List.length (bow_members (assign_seating roster)))%nat \/
  (10 < List.length (stroke_members (assign_seating roster)))%nat.
Proof.
  rewrite assign_info.
  destruct (Nat.ltb_spec 10
              (List.length (bow_members (assign_seating roster)))) as [E1|E1];
    destruct (Nat.ltb_spec 10
                (List.length (stroke_members (assign_seating roster))))
      as [E2|E2];
    cbn [orb]; split; intros H; try discriminate; try reflexivity;
    try (left; lia); try (right; lia); try (exfalso; lia).
Qed.

Lemma assign_info_hidden (roster : list Paddler) :
  info (assign_seating roster) = None <->
  (List.length (bow_members (assign_seating roster)) <= 10)%nat /\
  (List.length (stroke_members (assign_seating roster)) <= 10)%nat.
Proof.
  rewrite assign_info.
  destruct (Nat.ltb_spec 10
              (List.length (bow_members (assign_seating roster)))) as [E1|E1];
    destruct (Nat.ltb_spec 10
                (List.length (stroke_members (assign_seating roster))))
      as [E2|E2];
    cbn [orb]; split; intros H; try discriminate; try reflexivity;
    try lia.
Qed.

Lemma assign_seated_lengths (roster : list Paddler) :
  List.length (bow (assign_seating roster))
  = Nat.min 10 (List.length (bow_members (assign_seating roster))) /\
  List.length (stroke (assign_seating roster))
  = Nat.min 10 (List.length (stroke_members (assign_seating roster))) /\
  (List.length (bow_members (assign_seating roster))
   + List.length (stroke_members (assign_seating roster)))%nat
  = List.length roster.
Proof.
  rewrite assign_bow, assign_stroke, !build_side_length.
  split; [reflexivity|]. split; [reflexivity|].
  rewrite <- length_app. apply Permutation_length, assign_members_perm.
Qed.

(** X4.  The dashboard's Bow and Stroke counts and the number of
    no-preference paddlers add up to the roster size, and each count is a
    lower bound on what that side receives.  So a count above 10 already
    means the overflow report on Assign; a roster above 20 always
    overflows; and a roster of at most 10 never does and seats everyone. *)
Theorem dashboard_predicts_overflow (roster : list Paddler) :
  let a := assign_seating roster in
  (bow_count roster + stroke_count roster
   + List.length (filter no_preference roster) = List.length roster)%nat /\
  (bow_count roster <= List.length (bow_members a))%nat /\
  (stroke_count roster <= List.length (stroke_members a))%nat /\
  ((10 < bow_count roster)%nat \/ (10 < stroke_count roster)%nat ->
   info a = Some overflow_text) /\
  ((20 < List.length roster)%nat -> info a = Some overflow_text) /\
  ((List.length roster <= 10)%nat ->
   info a = None /\
   (List.length (bow a) + List.length (stroke a))%nat = List.length roster).
Proof.
  cbv zeta. unfold bow_count, stroke_count. rewrite !count_if_length.
  destruct (assign_members roster) as (xs & ys & Hb & Hs & Hp).
  destruct (assign_seated_lengths roster) as (Lb & Ls & Lr).
  pose proof (Permutation_length (partition_perm roster)) as Hpart.
  rewrite !length_app in Hpart.
  assert (Hbl : (List.length (filter (position_is "bow") roster)
                 <= List.length (bow_members (assign_seating roster)))%nat).
  { rewrite Hb, length_app. lia. }
  assert (Hsl : (List.length (filter (position_is "stroke") roster)
                 <= List.length (stroke_members (assign_seating roster)))%nat).
  { rewrite Hs, length_app. lia. }
  split; [lia|]. split; [exact Hbl|]. split; [exact Hsl|].
  split; [intros H; apply assign_info_shown; lia|].
  split; [intros H; apply assign_info_shown; lia|].
  intros H. split; [apply assign_info_hidden; lia | lia].
Qed.

(* ================================================================== *)
(** ** Sessions *)

Section PageFacts.
Context {pd : Pandas} {py : PyFloat}.

Lemma rows_of_frame_named (df : DataFrame) (e : Paddler) :
  In e (rows_of_frame df) -> name e <> "".
Proof.
  intros H Hn. apply filter_In in H as [_ H].
  rewrite Hn in H. discriminate.
Qed.

Lemma import_named (data : string) (e : Paddler) :
  In e (import_roster_from_csv_bytes data) -> name e <> "".
Proof.
  unfold import_roster_from_csv_bytes.
  destruct data; [intros []|].
  destruct (read_csv _) as [df|]; [apply rows_of_frame_named|].
  destruct (read_csv_text _) as [df|];
    [apply rows_of_frame_named | intros []].
Qed.

Lemma run_snoc (s : Session) (es : list Event) (e : Event) :
  run s (es ++ [e]) = fst (handle (run s es) e).
Proof. unfold run. now rewrite fold_left_app. Qed.

Lemma handle_members (s : Session) (e : Event) :
  dragon_members (fst (handle s e)) = dragon_members s \/
  dragon_members (fst (handle s e)) = [] \/
  (exists n w lv pos cl r,
      e = AddMember n w lv pos cl r /\ n <> "" /\
      dragon_members (fst (handle s e))
      = dragon_members s
        ++ [ {| name := n; weight := w; level := level_text lv;
                position := position_text pos;
                classification := class_text cl;
                role := role_text r |} ]) \/
  (exists f data,
      e = ImportCsv f data /\
      dragon_members (fst (handle s e))
      = dragon_members s ++ import_roster_from_csv_bytes data).
Proof.
  destruct e as [n w lv pos cl r| |f data|]; simpl.
  - destruct n as [|c n]; simpl; [now left|].
    right; right; left. exists (String c n), w, lv, pos, cl, r.
    repeat split. discriminate.
  - right; left. reflexivity.
  - right; right; right. exists f, data. split; [reflexivity|].
    destruct (import_roster_from_csv_bytes data); simpl;
      [now rewrite app_nil_r | reflexivity].
  - left. destruct (assign_seating_handler (dragon_members s)); reflexivity.
Qed.

(** X5.  In every session, however the roster was built (form entries,
    imports, clears, in any order), every roster entry has a non-empty
    name: the form refuses an empty name and the import drops rows whose
    stripped name is empty. *)
Theorem session_names_nonempty (es : list Event) :
  Forall (fun m => name m <> "") (dragon_members (run initial_session es)).
Proof.
  induction es as [|e es IH] using rev_ind; [constructor|].
  rewrite run_snoc.
  destruct (handle_members (run initial_session es) e)
    as [H | [H | [(n & w & lv & pos & cl & r & _ & Hn & H)
                 | (f & data & _ & H)]]]; rewrite H.
  - exact IH.
  - constructor.
  - apply Forall_app. split; [exact IH|]. constructor; [exact Hn|constructor].
  - apply Forall_app. split; [exact IH|].
    apply Forall_forall. intros m Hm. now apply (import_named data).
Qed.

(** X6.  In every session, whatever the sequence of form entries,
    imports, clears and assignments, the stored assignment is either
    empty or a completed assignment: at least one row, seats numbered 1
    to 10, sides Bow or Stroke. *)
Theorem session_assignment_completed (es : list Event) :
  dragon_assignment (run initial_session es) = [] \/
  completed_assignment (dragon_assignment (run initial_session es)).
Proof.
  induction es as [|e es IH] using rev_ind; [now left|].
  rewrite run_snoc. set (s := run initial_session es) in *.
  destruct e as [n w lv pos cl r| |f data|]; simpl.
  - destruct (nonempty n); exact IH.
  - now left.
  - destruct (import_roster_from_csv_bytes data); exact IH.
  - destruct (dragon_members s) as [|m ms] eqn:E; [exact IH|].
    right. cbn [assign_seating_handler fst dragon_assignment].
    apply assign_rows_completed. discriminate.
Qed.

Lemma distribute_nothing (bow_list stroke_list : list Paddler) :
  distribute_others_by_weight bow_list stroke_list []
  = (bow_list, stroke_list).
Proof. reflexivity. Qed.

Lemma no_others (roster : list Paddler) :
  Forall has_preference roster -> filter no_preference roster = [].
Proof.
  intros H. apply filter_none.
  eapply Forall_impl; [|exact H].
  intros m [Hm|Hm]; unfold no_preference; rewrite Hm;
    [reflexivity | apply negb_false_iff, orb_true_r].
Qed.

Lemma assign_preferring (roster : list Paddler) :
  Forall has_preference roster ->
  bow_members (assign_seating roster) = filter (position_is "bow") roster /\
  stroke_members (assign_seating roster)
  = filter (position_is "stroke") roster.
Proof.
  intros H.
  change (bow_members (assign_seating roster))
    with (fst (distribute_others_by_weight
                 (filter (position_is "bow") roster)
                 (filter (position_is "stroke") roster)
                 (filter no_preference roster))).
  change (stroke_members (assign_seating roster))
    with (snd (distribute_others_by_weight
                 (filter (position_is "bow") roster)
                 (filter (position_is "stroke") roster)
                 (filter no_preference roster))).
  rewrite (no_others _ H), distribute_nothing. split; reflexivity.
Qed.

Lemma form_members (es : list Event) :
  Forall form_event es ->
  Forall (fun m => has_preference m /\ 0 <= weight m)
    (dragon_members (run initial_session es)).
Proof.
  induction es as [|e es IH] using rev_ind; intros Hf; [constructor|].
  apply Forall_app in Hf as [Hes He].
  inversion He as [|? ? Hfe _]; subst.
  specialize (IH Hes). rewrite run_snoc.
  destruct (handle_members (run initial_session es) e)
    as [H | [H | [(n & w & lv & pos & cl & r & -> & Hn & H)
                 | (f & data & -> & H)]]]; rewrite H.
  - exact IH.
  - constructor.
  - apply Forall_app. split; [exact IH|].
    constructor; [|constructor]. split; [|exact Hfe].
    destruct pos; [left | right]; reflexivity.
  - destruct Hfe.
Qed.

(** X8.  A roster built with the form alone (no import) holds only
    paddlers with a stated side and a non-negative weight.  On Assign the
    distribution step then moves nobody: each side receives exactly the
    paddlers who chose it, in roster order, and every seated paddler sits
    on the side he or she chose. *)
Theorem form_rosters_need_no_distribution (es : list Event) :
  Forall form_event es ->
  let r := dragon_members (run initial_session es) in
  Forall has_preference r /\
  Forall (fun m => 0 <= weight m) r /\
  bow_members (assign_seating r) = filter (position_is "bow") r /\
  stroke_members (assign_seating r) = filter (position_is "stroke") r /\
  (forall m, In m (bow (assign_seating r)) -> position_is "bow" m = true) /\
  (forall m, In m (stroke (assign_seating r)) ->
             position_is "stroke" m = true).
Proof.
  intros Hf. cbv zeta.
  pose proof (form_members es Hf) as Hm.
  set (r := dragon_members (run initial_session es)) in *.
  assert (Hp : Forall has_preference r).
  { eapply Forall_impl; [|exact Hm]. now intros m [H _]. }
  destruct (assign_preferring r Hp) as [Hb Hs].
  split; [exact Hp|].
  split; [eapply Forall_impl; [|exact Hm]; now intros m [_ H]|].
  split; [exact Hb|]. split; [exact Hs|].
  split; intros m Hin.
  - rewrite assign_bow, Hb in Hin. apply build_side_In in Hin.
    now apply filter_In in Hin.
  - rewrite assign_stroke, Hs in Hin. apply build_side_In in Hin.
    now apply filter_In in Hin.
Qed.
End PageFacts.

(* ================================================================== *)
(** ** Balance cross *)







(* ================================================================== *)
(** ** Seat numbering and side totals *)

Lemma filter_flat_map_comm {A B : Type} (f : B -> bool) (g : A -> list B)
  (l : list A) :
  filter f (flat_map g l) = flat_map (fun x => filter f (g x)) l.
Proof.
  induction l as [|x l IH]; simpl; [reflexivity|].
  now rewrite filter_app, IH.
Qed.

Lemma rows_at_bow (bow_side stroke_side : list Paddler) (i : nat) :
  filter (side_is "bow") (rows_at bow_side stroke_side i)
  = match nth_error bow_side i with
    | Some m => [seat_row "Bow" i m]
    | None => []
    end.
Proof.
  unfold rows_at. rewrite filter_app.
  destruct (nth_error bow_side i), (nth_error stroke_side i); reflexivity.
Qed.

Lemma rows_at_stroke (bow_side stroke_side : list Paddler) (i : nat) :
  filter (side_is "stroke") (rows_at bow_side stroke_side i)
  = match nth_error stroke_side i with
    | Some m => [seat_row "Stroke" i m]
    | None => []
    end.
Proof.
  unfold rows_at. rewrite filter_app.
  destruct (nth_error bow_side i), (nth_error stroke_side i); reflexivity.
Qed.

(** Reading a list by index over a long enough range enumerates it. *)
Lemma rows_by_index (side : string) (l : list Paddler) :
  forall k n,
    (List.length l <= n)%nat ->
    flat_map (fun i => match nth_error l i with
                       | Some m => [seat_row side (k + i) m]
                       | None => []
                       end) (seq 0 n)
    = map (fun im => seat_row side (fst im) (snd im))
        (combine (seq k (List.length l)) l).
Proof.
  induction l as [|x l IH]; intros k n Hn.
  - simpl. induction (seq 0 n) as [|i s IHs]; [reflexivity|].
    simpl. destruct i; exact IHs.
  - destruct n as [|n]; [simpl in Hn; lia|].
    cbn [List.length seq combine map flat_map nth_error fst snd].
    rewrite Nat.add_0_r. cbn [app]. f_equal.
    rewrite <- seq_shift, flat_map_concat_map, map_map,
      <- flat_map_concat_map.
    rewrite <- (IH (S k) n) by (simpl in Hn; lia).
    apply flat_map_ext. intros i. cbn [nth_error].
    now rewrite Nat.add_succ_r.
Qed.

Lemma build_assign_rows_sides (bow_side stroke_side : list Paddler) :
  (List.length bow_side <= 10)%nat ->
  (List.length stroke_side <= 10)%nat ->
  filter (side_is "bow") (build_assign_rows bow_side stroke_side)
  = numbered "Bow" bow_side /\
  filter (side_is "stroke") (build_assign_rows bow_side stroke_side)
  = numbered "Stroke" stroke_side.
Proof.
  intros Hb Hs. unfold build_assign_rows, numbered.
  rewrite !filter_flat_map_comm.
  split.
  - rewrite <- (rows_by_index "Bow" bow_side 0
                  (Nat.min 10 (Nat.max (List.length bow_side)
                                 (List.length stroke_side)))) by lia.
    apply flat_map_ext. intros i. apply rows_at_bow.
  - rewrite <- (rows_by_index "Stroke" stroke_side 0
                  (Nat.min 10 (Nat.max (List.length bow_side)
                                 (List.length stroke_side)))) by lia.
    apply flat_map_ext. intros i. apply rows_at_stroke.
Qed.

Lemma numbered_from (side : string) (l : list Paddler) :
  forall k,
    map Seat (map (fun im => seat_row side (fst im) (snd im))
                (combine (seq k (List.length l)) l))
    = map Z.of_nat (seq (S k) (List.length l)) /\
    map Name (map (fun im => seat_row side (fst im) (snd im))
                (combine (seq k (List.length l)) l))
    = map name l /\
    map Weight (map (fun im => seat_row side (fst im) (snd im))
                  (combine (seq k (List.length l)) l))
    = map weight l /\
    Forall (fun r => Side r = side)
      (map (fun im => seat_row side (fst im) (snd im))
         (combine (seq k (List.length l)) l)).
Proof.
  induction l as [|x l IH]; intros k.
  - repeat split; constructor.
  - destruct (IH (S k)) as (H1 & H2 & H3 & H4).
    cbn [List.length seq combine map fst snd].
    rewrite H1, H2, H3.
    repeat split; try reflexivity.
    + f_equal. cbn [Seat seat_row]. lia.
    + constructor; [reflexivity | exact H4].
Qed.

Lemma numbered_fields (side : string) (l : list Paddler) :
  map Seat (numbered side l) = map Z.of_nat (seq 1 (List.length l)) /\
  map Name (numbered side l) = map name l /\
  map Weight (numbered side l) = map weight l /\
  Forall (fun r => Side r = side) (numbered side l).
Proof. apply numbered_from. Qed.


Lemma assign_sides_capped (roster : list Paddler) :
  (List.length (bow (assign_seating roster)) <= 10)%nat /\
  (List.length (stroke (assign_seating roster)) <= 10)%nat.
Proof.
  destruct (assign_seated_lengths roster) as (Hb & Hs & _).
  rewrite Hb, Hs. split; apply Nat.le_min_l.
Qed.

(** X10.  Within each side the seat numbers of an assignment are 1, 2,
    ..., n without a gap, n being the number of paddlers seated on that
    side (at most 10), and the rows of a side carry that side's paddlers
    in seat order: seat i of Bow is the i-th paddler the seat packer
    returned for Bow, and likewise for Stroke. *)
Theorem seats_contiguous (roster : list Paddler) :
  let a := assign_seating roster in
  let bow_rows := filter (side_is "bow") (assign_rows a) in
  let stroke_rows := filter (side_is "stroke") (assign_rows a) in
  map Seat bow_rows = map Z.of_nat (seq 1 (List.length (bow a))) /\
  map Name bow_rows = map name (bow a) /\
  map Weight bow_rows = map weight (bow a) /\
  Forall (fun r => Side r = "Bow") bow_rows /\
  map Seat stroke_rows = map Z.of_nat (seq 1 (List.length (stroke a))) /\
  map Name stroke_rows = map name (stroke a) /\
  map Weight stroke_rows = map weight (stroke a) /\
  Forall (fun r => Side r = "Stroke") stroke_rows /\
  (List.length (bow a) <= 10)%nat /\ (List.length (stroke a) <= 10)%nat.
Proof.
  cbv zeta.
  destruct (assign_sides_capped roster) as [Hb Hs].
  rewrite assign_rows_built.
  destruct (build_assign_rows_sides _ _ Hb Hs) as [-> ->].
  destruct (numbered_fields "Bow" (bow (assign_seating roster)))
    as (B1 & B2 & B3 & B4).
  destruct (numbered_fields "Stroke" (stroke (assign_seating roster)))
    as (S1 & S2 & S3 & S4).
  repeat split; assumption.
Qed.





Lemma form_rosters_need_no_distribution_witness :
  let r := dragon_members
             (@run (single_file_pandas sample_frame) no_float
                initial_session form_session) in
  Forall has_preference r /\
  Forall (fun m => 0 <= weight m) r /\
  bow_members (assign_seating r) = filter (position_is "bow") r /\
  stroke_members (assign_seating r) = filter (position_is "stroke") r /\
  (forall m, In m (bow (assign_seating r)) -> position_is "bow" m = true) /\
  (forall m, In m (stroke (assign_seating r)) ->
             position_is "stroke" m = true).
Proof.
  apply (@form_rosters_need_no_distribution
           (single_file_pandas sample_frame) no_float form_session).
  repeat constructor; simpl; lra.
Defined.

(* ================================================================== *)
(** ** Roles and seats *)

Lemma drop_none_app {A : Type} (l l' : list (option A)) :
  drop_none (l ++ l') = drop_none l ++ drop_none l'.
Proof.
  induction l as [|[x|] l IH]; simpl; [reflexivity| |exact IH].
  now rewrite IH.
Qed.

Lemma build_side_of_buckets (members : list Paddler) :
  build_side_with_roles members
  = drop_none (seats_of_calls
                 (fst (pop_sequence seat_calls (role_buckets members)))).
Proof. unfold build_side_with_roles. now rewrite fill_seats_calls. Qed.

Lemma seat_calls_unfold :
  seat_calls
  = [Pacers; Engines; Rockets] :: [Pacers; Engines; Rockets]
    :: [Rockets; Engines; Pacers] :: [Rockets; Engines; Pacers]
    :: repeat [Engines; Pacers; Rockets] 6.
Proof. reflexivity. Qed.

(** The results of a sequence of calls, as a list of known length. *)
Tactic Notation "name_results" integer(n) :=
  match goal with
  | |- context [fst (pop_sequence ?calls ?b)] =>
      let Hl := fresh "Hl" in
      pose proof (pop_sequence_results calls b) as Hl;
      revert Hl; generalize (fst (pop_sequence calls b));
      intros l Hl; cbn [repeat List.length] in Hl;
      do n (destruct l as [|? l];
            [cbn [List.length] in Hl; discriminate Hl|]);
      destruct l; [|cbn [List.length] in Hl; discriminate Hl]
  end.

(** With two pacers in the bucket, the first two calls return them. *)
Lemma two_pacers_calls (b : Buckets) (p1 p2 : Paddler) (ps : list Paddler)
  (rest : list (list Group)) :
  pacers b = p1 :: p2 :: ps ->
  exists b2,
    fst (pop_sequence ([Pacers; Engines; Rockets]
                       :: [Pacers; Engines; Rockets] :: rest) b)
    = Some p1 :: Some p2 :: fst (pop_sequence rest b2).
Proof.
  destruct b as [P E R]. cbn [pacers]. intros ->.
  eexists. reflexivity.
Qed.

Lemma two_pacers_first (b : Buckets) (p1 p2 : Paddler) (ps : list Paddler) :
  pacers b = p1 :: p2 :: ps ->
  exists rest,
    drop_none (seats_of_calls (fst (pop_sequence seat_calls b)))
    = p1 :: p2 :: rest.
Proof.
  intros H. rewrite seat_calls_unfold.
  destruct (two_pacers_calls b p1 p2 ps
              ([Rockets; Engines; Pacers] :: [Rockets; Engines; Pacers]
               :: repeat [Engines; Pacers; Rockets] 6) H) as [b2 ->].
  name_results 8.
  cbn [seats_of_calls drop_none]. eexists. reflexivity.
Qed.

(** With two paddlers for the front among pacers and engines, the third
    and fourth calls return the two heaviest rockets. *)
Lemma two_rockets_calls (b : Buckets) (r1 r2 : Paddler) (rs : list Paddler)
  (rest : list (list Group)) :
  rockets b = r1 :: r2 :: rs ->
  (2 <= List.length (pacers b) + List.length (engines b))%nat ->
  exists c1 c2 b4,
    fst (pop_sequence ([Pacers; Engines; Rockets]
                       :: [Pacers; Engines; Rockets]
                       :: [Rockets; Engines; Pacers]
                       :: [Rockets; Engines; Pacers] :: rest) b)
    = c1 :: c2 :: Some r1 :: Some r2 :: fst (pop_sequence rest b4).
Proof.
  destruct b as [P E R]. cbn [pacers engines rockets]. intros -> Hlen.
  destruct P as [|p1 [|p2 P]]; destruct E as [|e1 [|e2 E]];
    cbn [List.length] in Hlen; try lia;
    do 3 eexists; reflexivity.
Qed.

Lemma two_rockets_last (b : Buckets) (r1 r2 : Paddler) (rs : list Paddler) :
  rockets b = r1 :: r2 :: rs ->
  (2 <= List.length (pacers b) + List.length (engines b))%nat ->
  exists front,
    drop_none (seats_of_calls (fst (pop_sequence seat_calls b)))
    = front ++ [r2; r1].
Proof.
  intros H Hlen. rewrite seat_calls_unfold.
  destruct (two_rockets_calls b r1 r2 rs
              (repeat [Engines; Pacers; Rockets] 6) H Hlen)
    as (c1 & c2 & b4 & ->).
  name_results 6.
  cbn [seats_of_calls].
  match goal with
  | |- context [drop_none [?a1; ?a2; ?a5; ?a6; ?a7; ?a8; ?a9; ?a10;
                            Some r2; Some r1]] =>
      change [a1; a2; a5; a6; a7; a8; a9; a10; Some r2; Some r1]
        with ([a1; a2; a5; a6; a7; a8; a9; a10] ++ [Some r2; Some r1])
  end.
  rewrite drop_none_app. eexists. reflexivity.
Qed.

(** With neither pacer nor engine, the first call returns the heaviest
    rocket. *)
Lemma only_rockets_calls (b : Buckets) (r1 : Paddler) (rs : list Paddler)
  (rest : list (list Group)) :
  pacers b = [] -> engines b = [] -> rockets b = r1 :: rs ->
  exists b1,
    fst (pop_sequence ([Pacers; Engines; Rockets] :: rest) b)
    = Some r1 :: fst (pop_sequence rest b1).
Proof.
  destruct b as [P E R]. cbn [pacers engines rockets]. intros -> -> ->.
  eexists. reflexivity.
Qed.

Lemma only_rockets_first (b : Buckets) (r1 : Paddler) (rs : list Paddler) :
  pacers b = [] -> engines b = [] -> rockets b = r1 :: rs ->
  exists rest,
    drop_none (seats_of_calls (fst (pop_sequence seat_calls b)))
    = r1 :: rest.
Proof.
  intros Hp He Hr. rewrite seat_calls_unfold.
  destruct (only_rockets_calls b r1 rs
              ([Pacers; Engines; Rockets]
               :: [Rockets; Engines; Pacers] :: [Rockets; Engines; Pacers]
               :: repeat [Engines; Pacers; Rockets] 6) Hp He Hr) as [b1 ->].
  name_results 9.
  cbn [seats_of_calls drop_none]. eexists. reflexivity.
Qed.

(** X12.  "Pacers front, Rockets back", as the code does it.  When a side
    has at least two pacers, seats 1 and 2 hold its two heaviest pacers,
    the heaviest in seat 1.  When it has at least two rockets and at
    least two paddlers who are pacers or engines, its last two seats hold
    the two heaviest rockets, the heaviest in the last seat.  When it has
    neither pacer nor engine, the front seats are filled from the rockets
    and the heaviest rocket sits in seat 1. *)
Theorem pacers_front_rockets_back (members : list Paddler) :
  let b := role_buckets members in
  (forall p1 p2 ps,
      pacers b = p1 :: p2 :: ps ->
      exists rest, build_side_with_roles members = p1 :: p2 :: rest) /\
  (forall r1 r2 rs,
      rockets b = r1 :: r2 :: rs ->
      (2 <= List.length (pacers b) + List.length (engines b))%nat ->
      exists front, build_side_with_roles members = front ++ [r2; r1]) /\
  (forall r1 rs,
      pacers b = [] -> engines b = [] -> rockets b = r1 :: rs ->
      exists rest, build_side_with_roles members = r1 :: rest).
Proof.
  cbv zeta. rewrite build_side_of_buckets.
  split; [|split].
  - intros p1 p2 ps H. now apply (two_pacers_first _ p1 p2 ps).
  - intros r1 r2 rs H Hlen. now apply (two_rockets_last _ r1 r2 rs).
  - intros r1 rs Hp He Hr. now apply (only_rockets_first _ r1 rs).
Qed.

(** Three pacers, two rockets: the two heaviest pacers lead, the two
    rockets close, the heavier one last. *)
Example pacers_front_rockets_back_sample :
  map name
    (build_side_with_roles
       [paddler "r1" 60 "Bow" "Rocket"; paddler "p1" 70 "Bow" "Pacer";
        paddler "p2" 90 "Bow" "pacer"; paddler "r2" 85 "Bow" "ROCKET";
        paddler "p3" 80 "Bow" "Pacer"])
  = ["p2"; "p3"; "p1"; "r1"; "r2"].
Proof. reflexivity. Qed.

(* ================================================================== *)
(** ** More on the roster CSV *)

Section CsvMore.
Context {pd : Pandas} {py : PyFloat}.

Lemma entry_stripped (cols : list string) (r : list Cell) :
  stripped (entry_of_row cols r) = entry_of_row cols r.
Proof.
  unfold stripped, entry_of_row. cbn [name weight level position
                                      classification role].
  now rewrite !strip_idem.
Qed.

Lemma rows_of_frame_clean (df : DataFrame) :
  Forall clean (rows_of_frame df).
Proof.
  apply Forall_forall. intros e He.
  split; [|now apply (rows_of_frame_named df)].
  apply filter_In in He as [He _]. apply in_map_iff in He as (r & <- & _).
  apply entry_stripped.
Qed.

Lemma import_clean (data : string) :
  Forall clean (import_roster_from_csv_bytes data).
Proof.
  unfold import_roster_from_csv_bytes.
  destruct data; [constructor|].
  destruct (read_csv _) as [df|]; [apply rows_of_frame_clean|].
  destruct (read_csv_text _) as [df|];
    [apply rows_of_frame_clean | constructor].
Qed.

(** X13.  Every record the import returns is in normal form: [strip]
    leaves each of its text fields as it is, so none carries leading or
    trailing whitespace, and its name is not empty. *)
Theorem imported_roster_is_clean (data : string) :
  Forall clean (import_roster_from_csv_bytes data).
Proof. apply import_clean. Qed.

(** The frames the two exports hand to [to_csv]. *)
Lemma add_keys_row (r : AssignRow) :
  add_keys [] (dict_of_row r) = assignment_fieldnames /\
  add_keys assignment_fieldnames (dict_of_row r) = assignment_fieldnames.
Proof. split; reflexivity. Qed.

Lemma columns_of_rows (rows : list AssignRow) (r : AssignRow) :
  fold_left add_keys (map dict_of_row (r :: rows)) []
  = assignment_fieldnames.
Proof.
  cbn [map fold_left]. rewrite (proj1 (add_keys_row r)).
  induction rows as [|r' rows IH]; cbn [map fold_left]; [reflexivity|].
  rewrite (proj2 (add_keys_row r')). exact IH.
Qed.

Lemma export_assignment (rows : list AssignRow) :
  rows <> [] ->
  dicts_to_csv_bytes (map dict_of_row rows) assignment_fieldnames
  = to_csv (assignment_frame rows).
Proof.
  destruct rows as [|r rows]; [contradiction|]. intros _.
  unfold dicts_to_csv_bytes.
  change (match map dict_of_row (r :: rows) with
          | [] => ""
          | _ :: _ => ?x
          end) with x.
  unfold DataFrame_of_dicts. rewrite columns_of_rows.
  cbn [columns records].
  change (filter (fun c => mem_string c assignment_fieldnames)
            assignment_fieldnames)
    with assignment_fieldnames.
  cbn [assignment_fieldnames].
  f_equal. unfold select_columns, assignment_frame. cbn [columns records].
  f_equal. rewrite !map_map. apply map_ext. intros p. reflexivity.
Qed.

(** X14.  Both exports write a table whose columns are the fixed field
    names in their fixed order (name, weight, level, position,
    classification, role; Seat, Side, Name, Weight, Level, Classification,
    Role) with one row per record in the order given; the roster export
    is given the displayed rows, so it follows the sort order chosen for
    the roster view.  With nothing to export the bytes are empty. *)
Theorem exports_have_fixed_columns
  (members : list Paddler) (method : string) (rows : list AssignRow) :
  (members <> [] ->
   dicts_to_csv_bytes (map dict_of_paddler (sort_roster members method))
     roster_fieldnames
   = to_csv (roster_frame (sort_roster members method))) /\
  (rows <> [] ->
   dicts_to_csv_bytes (map dict_of_row rows) assignment_fieldnames
   = to_csv (assignment_frame rows)) /\
  dicts_to_csv_bytes (map dict_of_paddler (sort_roster [] method))
    roster_fieldnames = "" /\
  dicts_to_csv_bytes (map dict_of_row []) assignment_fieldnames = "".
Proof.
  split; [|split; [|split]]; try reflexivity.
  - intros Hne. apply export_roster.
    intros Hs. apply Hne.
    pose proof (sort_roster_length members method) as Hl.
    rewrite Hs in Hl. symmetry in Hl. now apply length_zero_iff_nil.
  - apply export_assignment.
Qed.
End CsvMore.





(* ================================================================== *)
(** ** Column labels *)

Lemma lower_empty (s : string) : lower s = "" <-> s = "".
Proof.
  split; [|now intros ->].
  destruct s as [|c1 [|c2 [|c3 r]]]; simpl; try discriminate; [reflexivity|].
  destruct (kelvin_sign c1 c2 c3); discriminate.
Qed.

Lemma match_or_not (cs : list string) (key : string) :
  Forall (fun c => lower c <> key) cs \/
  Exists (fun c => lower c = key) cs.
Proof.
  induction cs as [|c cs [IH|IH]].
  - left. constructor.
  - destruct (String.eqb_spec (lower c) key) as [E|E].
    + right. now left.
    + left. now constructor.
  - right. now right.
Qed.

Lemma lowered_none (cs cs' : list string) (key : string) :
  map lower cs = map lower cs' ->
  Forall (fun c => lower c <> key) cs ->
  Forall (fun c => lower c <> key) cs'.
Proof.
  intros Hm H.
  apply (Forall_map lower (fun l => l <> key)).
  rewrite <- Hm. now apply (Forall_map lower (fun l => l <> key)).
Qed.

Lemma lowered_some (cs cs' : list string) (key : string) :
  map lower cs = map lower cs' ->
  Exists (fun c => lower c = key) cs ->
  Exists (fun c => lower c = key) cs'.
Proof.
  intros Hm H.
  apply (Exists_map lower (fun l => l = key)).
  rewrite <- Hm. now apply (Exists_map lower (fun l => l = key)).
Qed.

(** The column picked once the scan has a candidate [a]. *)
Lemma mapped_from_in (key : string) (cs : list string) :
  forall a,
    fold_left (fun found c => if String.eqb (lower c) key then c else found)
      cs a = a \/
    In (fold_left
          (fun found c => if String.eqb (lower c) key then c else found)
          cs a) cs.
Proof.
  induction cs as [|c cs IH]; intros a; simpl; [now left|].
  destruct (IH (if String.eqb (lower c) key then c else a)) as [H|H].
  - rewrite H. destruct (String.eqb (lower c) key); [right|left]; auto.
  - right. now right.
Qed.

Lemma mapped_from_none (key : string) (cs : list string) :
  Forall (fun c => lower c <> key) cs ->
  forall a,
    fold_left (fun found c => if String.eqb (lower c) key then c else found)
      cs a = a.
Proof.
  induction 1 as [|c cs Hc _ IH]; intros a; simpl; [reflexivity|].
  destruct (String.eqb_spec (lower c) key) as [E|E]; [contradiction|].
  apply IH.
Qed.

Lemma mapped_from_any (key : string) (cs : list string) :
  Exists (fun c => lower c = key) cs ->
  forall a b,
    fold_left (fun found c => if String.eqb (lower c) key then c else found)
      cs a
    = fold_left (fun found c => if String.eqb (lower c) key then c else found)
        cs b /\
    In (fold_left
          (fun found c => if String.eqb (lower c) key then c else found)
          cs a) cs.
Proof.
  induction 1 as [c cs Hc | c cs _ IH]; intros a b; simpl.
  - rewrite Hc, String.eqb_refl. split; [reflexivity|].
    destruct (mapped_from_in key cs c) as [H|H];
      [rewrite H; now left | now right].
  - destruct (IH (if String.eqb (lower c) key then c else a)
                (if String.eqb (lower c) key then c else b)) as [H1 H2].
    split; [exact H1 | now right].
Qed.

Lemma mapped_from_some (key : string) (cs : list string) :
  Exists (fun c => lower c = key) cs ->
  forall a,
    fold_left (fun found c => if String.eqb (lower c) key then c else found)
      cs a = mapped_column cs key /\
    In (mapped_column cs key) cs.
Proof.
  intros H a. unfold mapped_column.
  destruct (mapped_from_any key cs H a "") as [H1 H2].
  destruct (mapped_from_any key cs H "" "") as [_ H3].
  split; assumption.
Qed.

Section Labels.
Context {py : PyFloat}.

(** The cell read for a key depends on the labels' lower-cased forms
    only. *)
Lemma cell_of_lowered (key : string) (d : Cell) (cs : list string) :
  forall cs' r,
    map lower cs = map lower cs' -> NoDup cs -> NoDup cs' ->
    row_get cs r (mapped_column cs key) d
    = row_get cs' r (mapped_column cs' key) d.
Proof.
  induction cs as [|c t IH]; intros cs' r Hm Hn Hn'.
  - destruct cs'; [reflexivity | discriminate].
  - destruct cs' as [|c' t']; [discriminate|].
    injection Hm as Hc Ht.
    inversion Hn as [|? ? Hnc Hnt]; subst.
    inversion Hn' as [|? ? Hnc' Hnt']; subst.
    destruct r as [|v vs]; [reflexivity|].
    unfold mapped_column. cbn [fold_left].
    destruct (match_or_not t key) as [Hnone|Hsome].
    + pose proof (lowered_none _ _ _ Ht Hnone) as Hnone'.
      rewrite (mapped_from_none _ _ Hnone), (mapped_from_none _ _ Hnone').
      specialize (IH t' vs Ht Hnt Hnt').
      unfold mapped_column in IH.
      rewrite (mapped_from_none _ _ Hnone), (mapped_from_none _ _ Hnone')
        in IH.
      rewrite <- Hc.
      destruct (String.eqb_spec (lower c) key) as [E|E].
      * cbn [row_get]. now rewrite !String.eqb_refl.
      * cbn [row_get].
        destruct (String.eqb_spec c "") as [E1|E1];
          destruct (String.eqb_spec c' "") as [E2|E2];
          try reflexivity; try exact IH.
        -- exfalso. apply E2. apply lower_empty. rewrite <- Hc.
           now apply lower_empty.
        -- exfalso. apply E1. apply lower_empty. rewrite Hc.
           now apply lower_empty.
    + pose proof (lowered_some _ _ _ Ht Hsome) as Hsome'.
      destruct (mapped_from_some _ _ Hsome
                  (if String.eqb (lower c) key then c else "")) as [-> Hin].
      destruct (mapped_from_some _ _ Hsome'
                  (if String.eqb (lower c') key then c' else ""))
        as [-> Hin'].
      cbn [row_get].
      destruct (String.eqb_spec c (mapped_column t key)) as [E|E];
        [rewrite <- E in Hin; contradiction|].
      destruct (String.eqb_spec c' (mapped_column t' key)) as [E'|E'];
        [rewrite <- E' in Hin'; contradiction|].
      now apply IH.
Qed.

Lemma entry_of_lowered (cols cols' : list string) (r : list Cell) :
  NoDup cols -> NoDup cols' -> map lower cols = map lower cols' ->
  entry_of_row cols r = entry_of_row cols' r.
Proof.
  intros Hn Hn' Hm. unfold entry_of_row.
  rewrite (cell_of_lowered "name" (CStr "") cols cols' r Hm Hn Hn').
  rewrite (cell_of_lowered "weight" (CStr "") cols cols' r Hm Hn Hn').
  rewrite (cell_of_lowered "level" (CStr "") cols cols' r Hm Hn Hn').
  rewrite (cell_of_lowered "position" (CStr "") cols cols' r Hm Hn Hn').
  rewrite (cell_of_lowered "classification" (CStr "") cols cols' r Hm Hn Hn').
  rewrite (cell_of_lowered "role" (CStr "") cols cols' r Hm Hn Hn').
  reflexivity.
Qed.

(** X15.  The import matches column labels case-insensitively: two frames
    with the same rows whose labels (distinct within each frame) agree
    once lower-cased give the same roster entries. *)
Theorem import_labels_case_insensitive
  (cols cols' : list string) (recs : list (list Cell)) :
  NoDup cols -> NoDup cols' -> map lower cols = map lower cols' ->
  rows_of_frame {| columns := cols; records := recs |}
  = rows_of_frame {| columns := cols'; records := recs |}.
Proof.
  intros Hn Hn' Hm. unfold rows_of_frame. cbn [columns records].
  f_equal. apply map_ext. intros r. now apply entry_of_lowered.
Qed.
End Labels.

Lemma import_labels_case_insensitive_witness :
  @rows_of_frame no_float
    {| columns := ["Name"; "Weight"; "Role"];
       records := records sample_frame |}
  = @rows_of_frame no_float
      {| columns := ["NAME"; "weight"; "rOLE"];
         records := records sample_frame |}.
Proof.
  apply (@import_labels_case_insensitive no_float).
  - repeat constructor; simpl; intuition discriminate.
  - repeat constructor; simpl; intuition discriminate.
  - reflexivity.
Defined.
